(** * The TensorFlow Lite bridge of ARLinguaSphere (tflite_unity.cpp)

    A shallow embedding of the nine JNI entry points of
    [Assets/Plugins/Android/tflite_unity.cpp] and the properties of the
    bridge that follow from the code.

    The bridge is glue: it moves cells between Java arrays and the
    tensors of a TensorFlow Lite interpreter and turns the library's
    answers into status codes.  The embedding therefore has three parts:

    - the machine view of the data (32-bit [jint], 64-bit [size_t],
      4-byte float cells, Java arrays, the native heap of contexts);
    - the wrapped library, which is not part of the bridge and is kept as
      a record [Engine] of fallible calls;
    - the entry points, written in a state-and-fault monad in the order
      of the C++ statements. *)

From Stdlib Require Import ZArith Lia List.
From stdpp Require Import base option list gmap strings.

Local Open Scope Z_scope.

(** ** Machine integers *)

Module MachineInt.

(** Two's complement reading of the low [bits] bits of [z]. *)
Definition wrap_signed (bits z : Z) : Z :=
  (z + 2 ^ (bits - 1)) mod 2 ^ bits - 2 ^ (bits - 1).

(** Conversion to [jint] (a 32-bit [int]), as done by [return v.size();]. *)
Definition to_jint (z : Z) : Z := wrap_signed 32 z.

(** Conversion to [size_t]; the bridge is built for a 64-bit ABI. *)
Definition to_size_t (z : Z) : Z := z mod 2 ^ 64.

Definition sizeof_float : Z := 4.

(** [dataSize * sizeof(float)]: the [jint] is converted to [size_t]
    and the product wraps. *)
Definition float_bytes (count : Z) : Z :=
  to_size_t (to_size_t count * sizeof_float).

End MachineInt.
Export MachineInt.

(** ** Data *)

(** A [jfloat] cell is modelled by its 32-bit pattern, a [jbyte] and a
    [jint] by their value; handles ([jlong]) and array references are
    integers, 0 being the null reference. *)
Abbreviation jfloat := Z (only parsing).
Abbreviation jint := Z (only parsing).
Abbreviation jlong := Z (only parsing).
Abbreviation jarray := Z (only parsing).

Inductive android_LogPriority := ANDROID_LOG_DEBUG | ANDROID_LOG_ERROR.

Inductive log_arg := ArgInt (n : Z) | ArgStr (s : string).

(** One call of [__android_log_print]: priority, tag, format and the
    variadic arguments. *)
Record log_line := LogLine {
  prio : android_LogPriority;
  tag : string;
  fmt : string;
  fmt_args : list log_arg
}.

Definition LOG_TAG : string := "TFLiteUnity".

(** [TfLiteTensor]: [dims] is the [TfLiteIntArray] (its [size] is the
    length of the list), [data_f] the buffer seen through [data.f]. *)
Record TfLiteTensor := Tensor {
  dims : list Z;
  data_f : list jfloat
}.

Record FlatBufferModel := FlatBuffer { buffer : list Z }.

(** The part of [tflite::Interpreter] the bridge reaches through
    pointers: the tensor table.  A [TfLiteTensor*] is a position in it. *)
Record Interpreter := Interp {
  tensors : list TfLiteTensor;
  num_threads : Z;
  graph : FlatBufferModel
}.

(** [struct TFLiteContext]; both [unique_ptr]s start empty.  (The
    [BuiltinOpResolver] member carries no state.) *)
Record TFLiteContext := Context {
  model : option FlatBufferModel;
  interpreter : option Interpreter
}.

Definition empty_context : TFLiteContext := Context None None.

Inductive TfLiteStatus :=
  kTfLiteOk | kTfLiteError | kTfLiteDelegateError | kTfLiteApplicationError.

Definition is_ok (s : TfLiteStatus) : bool :=
  match s with kTfLiteOk => true | _ => false end.

(** ** Faults and the wrapped library *)

(** What a call into native code can raise: an exception derived from
    [std::exception] (with its [what()]), or anything else. *)
Inductive fault := StdException (what : string) | ForeignFault.

Inductive outcome (A : Type) := Ret (a : A) | Throw (f : fault).
Arguments Ret {A} a.
Arguments Throw {A} f.

(** The calls the bridge makes into TensorFlow Lite.  Slot accessors take
    the index as a [size_t] and answer a tensor pointer or [nullptr]. *)
Record Engine := {
  BuildFromBuffer : list Z -> Z -> outcome (option FlatBufferModel);
  InterpreterBuilder : FlatBufferModel -> outcome (option Interpreter);
  AllocateTensors : Interpreter -> outcome (TfLiteStatus * Interpreter);
  SetNumThreads : Interpreter -> Z -> outcome (TfLiteStatus * Interpreter);
  Invoke : Interpreter -> outcome (TfLiteStatus * Interpreter);
  input_tensor : Interpreter -> Z -> outcome (option nat);
  output_tensor : Interpreter -> Z -> outcome (option nat);
  inputs : Interpreter -> outcome (list Z);
  outputs : Interpreter -> outcome (list Z)
}.

(** ** The world the bridge runs in *)

(** How the VM answers [Get<T>ArrayElements] for an array: with [NULL],
    with a pointer into the array itself, or with a copy. *)
Inductive elem_access := Inaccessible | Direct | Copied.

Record World := MkWorld {
  heap : gmap Z TFLiteContext;      (* objects made by [new], by address *)
  byte_arrays : gmap Z (list Z);
  float_arrays : gmap Z (list Z);
  int_arrays : gmap Z (list Z);
  vm_access : Z -> elem_access;
  borrowed : list Z;                (* element buffers not yet released *)
  logcat : list log_line
}.

Definition set_heap (f : gmap Z TFLiteContext -> gmap Z TFLiteContext) (w : World) : World :=
  MkWorld (f (heap w)) (byte_arrays w) (float_arrays w) (int_arrays w)
          (vm_access w) (borrowed w) (logcat w).

Definition set_borrowed (f : list Z -> list Z) (w : World) : World :=
  MkWorld (heap w) (byte_arrays w) (float_arrays w) (int_arrays w)
          (vm_access w) (f (borrowed w)) (logcat w).

Definition set_logcat (f : list log_line -> list log_line) (w : World) : World :=
  MkWorld (heap w) (byte_arrays w) (float_arrays w) (int_arrays w)
          (vm_access w) (borrowed w) (f (logcat w)).

(** The three primitive array types the bridge touches. *)
Inductive array_kind := BYTE | FLOAT | INT.

Definition arrays_of (k : array_kind) (w : World) : gmap Z (list Z) :=
  match k with
  | BYTE => byte_arrays w
  | FLOAT => float_arrays w
  | INT => int_arrays w
  end.

Definition set_arrays (k : array_kind) (f : gmap Z (list Z) -> gmap Z (list Z)) (w : World) : World :=
  match k with
  | BYTE => MkWorld (heap w) (f (byte_arrays w)) (float_arrays w) (int_arrays w)
                    (vm_access w) (borrowed w) (logcat w)
  | FLOAT => MkWorld (heap w) (byte_arrays w) (f (float_arrays w)) (int_arrays w)
                     (vm_access w) (borrowed w) (logcat w)
  | INT => MkWorld (heap w) (byte_arrays w) (float_arrays w) (f (int_arrays w))
                   (vm_access w) (borrowed w) (logcat w)
  end.

(** ** The monad: state, C++ exceptions, undefined behaviour *)

Inductive result (A : Type) :=
| Done (a : A) (w : World)        (* the statement completed *)
| Raise (f : fault) (w : World)   (* an exception is in flight *)
| Undefined.                      (* C++ gives the program no meaning *)
Arguments Done {A} a w.
Arguments Raise {A} f w.
Arguments Undefined {A}.

Definition M (A : Type) : Type := World -> result A.

Global Instance M_ret : MRet M := fun A a w => Done a w.

Global Instance M_bind : MBind M := fun A B k m w =>
  match m w with
  | Done a w' => k a w'
  | Raise f w' => Raise f w'
  | Undefined => Undefined
  end.

Definition undefined {A} : M A := fun _ => Undefined.

Definition modify (f : World -> World) : M unit := fun w => Done tt (f w).

(** A call into the library: its exception, if any, is now in flight. *)
Definition call {A} (o : outcome A) : M A := fun w =>
  match o with
  | Ret a => Done a w
  | Throw f => Raise f w
  end.

(** [try { body } catch (const std::exception& e) { handler e.what() }]:
    only faults derived from [std::exception] are handled. *)
Definition try_catch {A} (body : M A) (handler : string -> M A) : M A := fun w =>
  match body w with
  | Raise (StdException what) w' => handler what w'
  | r => r
  end.

Definition LOGD (f : string) (args : list log_arg) : M unit :=
  modify (set_logcat (fun l => l ++ [LogLine ANDROID_LOG_DEBUG LOG_TAG f args])).

Definition LOGE (f : string) (args : list log_arg) : M unit :=
  modify (set_logcat (fun l => l ++ [LogLine ANDROID_LOG_ERROR LOG_TAG f args])).

(** ** JNI array access *)

Definition JNI_COMMIT : Z := 1.
Definition JNI_ABORT : Z := 2.

(** The native pointer returned by [Get<T>ArrayElements]: the array it
    belongs to, whether it designates a copy, and the cells behind it. *)
Record elements := Elems {
  origin : Z;
  is_copy : bool;
  cells : list Z
}.

Fixpoint release_one (array : Z) (l : list Z) : list Z :=
  match l with
  | [] => []
  | x :: l' => if x =? array then l' else x :: release_one array l'
  end.

(** Handing a reference that designates no array to JNI is undefined. *)
Definition GetArrayLength (k : array_kind) (array : jarray) : M Z := fun w =>
  match arrays_of k w !! array with
  | Some l => Done (Z.of_nat (length l)) w
  | None => Undefined
  end.

Definition GetArrayElements (k : array_kind) (array : jarray) : M (option elements) := fun w =>
  match arrays_of k w !! array with
  | None => Undefined
  | Some l =>
      match vm_access w array with
      | Inaccessible => Done None w
      | Direct => Done (Some (Elems array false l)) (set_borrowed (cons array) w)
      | Copied => Done (Some (Elems array true l)) (set_borrowed (cons array) w)
      end
  end.

(** A native store through the element pointer: it lands in the array
    at once when the pointer is direct, in the copy otherwise. *)
Definition store_elements (k : array_kind) (e : elements) (new : list Z) : M elements := fun w =>
  if is_copy e then Done (Elems (origin e) true new) w
  else Done (Elems (origin e) false new) (set_arrays k (<[origin e := new]>) w).

(** [Release<T>ArrayElements]: mode 0 copies back and frees, [JNI_COMMIT]
    copies back and keeps the buffer, [JNI_ABORT] frees without copying. *)
Definition ReleaseArrayElements (k : array_kind) (array : jarray) (e : elements) (mode : Z) : M unit := fun w =>
  match arrays_of k w !! array with
  | None => Undefined
  | Some _ =>
      let w1 := if is_copy e && negb (mode =? JNI_ABORT)
                then set_arrays k (<[array := cells e]>) w else w in
      Done tt (if mode =? JNI_COMMIT then w1 else set_borrowed (release_one array) w1)
  end.

(** The typed entry points of the JNI function table. *)
Abbreviation GetByteArrayElements := (GetArrayElements BYTE).
Abbreviation GetFloatArrayElements := (GetArrayElements FLOAT).
Abbreviation GetIntArrayElements := (GetArrayElements INT).
Abbreviation ReleaseByteArrayElements := (ReleaseArrayElements BYTE).
Abbreviation ReleaseFloatArrayElements := (ReleaseArrayElements FLOAT).
Abbreviation ReleaseIntArrayElements := (ReleaseArrayElements INT).

(** ** The native heap *)

(** [new] answers an address that is neither null nor in use. *)
Definition new_addr (w : World) : Z :=
  1 + map_fold (fun k (_ : TFLiteContext) acc => Z.max k acc) 0 (heap w).

(** [*context]: only a live object can be reached. *)
Definition deref (p : Z) : M TFLiteContext := fun w =>
  match heap w !! p with
  | Some c => Done c w
  | None => Undefined
  end.

(** [context->interpreter->...]: the [unique_ptr] must hold an object. *)
Definition the_interpreter (p : Z) : M Interpreter :=
  c ← deref p;
  match interpreter c with
  | Some it => mret it
  | None => undefined
  end.

Definition set_model (p : Z) (m : option FlatBufferModel) : M unit :=
  c ← deref p;
  modify (set_heap (<[p := Context m (interpreter c)]>)).

Definition set_interpreter (p : Z) (i : option Interpreter) : M unit :=
  c ← deref p;
  modify (set_heap (<[p := Context (model c) i]>)).

Definition delete_context (p : Z) : M unit :=
  _ ← deref p;
  modify (set_heap (delete p)).

(** The scope of [auto context = std::make_unique<TFLiteContext>()]:
    the body says whether it called [context.release()]; otherwise the
    object is destroyed when the scope is left, by [return] or by an
    exception unwinding through it. *)
Definition unique_scope {A} (body : Z -> M (A * bool)) : M A := fun w =>
  let a := new_addr w in
  match body a (set_heap (<[a := empty_context]>) w) with
  | Done (v, released) w' =>
      Done v (if released then w' else set_heap (delete a) w')
  | Raise f w' => Raise f (set_heap (delete a) w')
  | Undefined => Undefined
  end.

(** [*tensor] for a [TfLiteTensor*] of the session at [h]. *)
Definition tensor_at (h : Z) (p : nat) : M TfLiteTensor :=
  it ← the_interpreter h;
  match tensors it !! p with
  | Some t => mret t
  | None => undefined
  end.

Definition with_data (t : TfLiteTensor) (d : list jfloat) : TfLiteTensor :=
  Tensor (dims t) d.

Definition with_tensor (it : Interpreter) (p : nat) (t : TfLiteTensor) : Interpreter :=
  Interp (<[p := t]> (tensors it)) (num_threads it) (graph it).

(** A native store into [tensor->data.f]. *)
Definition store_tensor_data (h : Z) (p : nat) (d : list jfloat) : M unit :=
  it ← the_interpreter h;
  match tensors it !! p with
  | Some t => set_interpreter h (Some (with_tensor it p (with_data t d)))
  | None => undefined
  end.

(** [memcpy(dst, src, n)] on buffers of 4-byte cells, [n] a multiple of
    4 as produced by [float_bytes]: the first [n / 4] cells of [dst] are
    replaced by those of [src].  Copying more bytes than either buffer
    holds has no defined behaviour. *)
Definition memcpy_cells (dst src : list Z) (n : Z) : option (list Z) :=
  if (n <=? sizeof_float * Z.of_nat (length dst)) && (n <=? sizeof_float * Z.of_nat (length src))
  then Some (take (Z.to_nat (n / sizeof_float)) src ++ drop (Z.to_nat (n / sizeof_float)) dst)
  else None.

Definition memcpy (dst src : list Z) (n : Z) : M (list Z) :=
  match memcpy_cells dst src n with
  | Some l => mret l
  | None => undefined
  end.

(** ** The entry points *)

Section Bridge.

Variable E : Engine.

(** The thread count fixed at creation ([SetNumThreads(4)]). *)
Definition CONTEXT_THREADS : Z := 4.

Definition Java_com_arlinguasphere_TFLitePlugin_createInterpreter (modelData : jarray) : M jlong :=
  modelSize ← GetArrayLength BYTE modelData;
  modelBytes ← GetByteArrayElements modelData;
  match modelBytes with
  | None => LOGE "Failed to get model bytes" [];; mret 0
  | Some modelBytes =>
      try_catch
        (unique_scope (fun context =>
           m ← call (BuildFromBuffer E (cells modelBytes) modelSize);
           set_model context m;;
           match m with
           | None =>
               LOGE "Failed to create TensorFlow Lite model" [];;
               ReleaseByteArrayElements modelData modelBytes JNI_ABORT;;
               mret (0, false)
           | Some mdl =>
               i ← call (InterpreterBuilder E mdl);
               set_interpreter context i;;
               match i with
               | None =>
                   LOGE "Failed to create TensorFlow Lite interpreter" [];;
                   ReleaseByteArrayElements modelData modelBytes JNI_ABORT;;
                   mret (0, false)
               | Some it =>
                   '(st, it1) ← call (AllocateTensors E it);
                   set_interpreter context (Some it1);;
                   if is_ok st then
                     '(_, it2) ← call (SetNumThreads E it1 CONTEXT_THREADS);
                     set_interpreter context (Some it2);;
                     LOGD "TensorFlow Lite interpreter created successfully" [];;
                     ReleaseByteArrayElements modelData modelBytes JNI_ABORT;;
                     mret (context, true)
                   else
                     LOGE "Failed to allocate tensors" [];;
                     ReleaseByteArrayElements modelData modelBytes JNI_ABORT;;
                     mret (0, false)
               end
           end))
        (fun what =>
           LOGE "Exception creating interpreter: %s" [ArgStr what];;
           ReleaseByteArrayElements modelData modelBytes JNI_ABORT;;
           mret 0)
  end.

Definition Java_com_arlinguasphere_TFLitePlugin_destroyInterpreter (interpreterPtr : jlong) : M unit :=
  if interpreterPtr =? 0 then mret tt
  else
    delete_context interpreterPtr;;
    LOGD "TensorFlow Lite interpreter destroyed" [].

Definition Java_com_arlinguasphere_TFLitePlugin_setInputTensor (interpreterPtr : jlong) (inputIndex : jint)
    (data : jarray) (dataSize : jint) : M jint :=
  if interpreterPtr =? 0 then
    LOGE "Invalid interpreter pointer" [];; mret (-1)
  else
    try_catch
      (it ← the_interpreter interpreterPtr;
       input_tensor ← call (input_tensor E it (to_size_t inputIndex));
       match input_tensor with
       | None =>
           LOGE "Failed to get input tensor %d" [ArgInt inputIndex];; mret (-1)
       | Some p =>
           inputData ← GetFloatArrayElements data;
           match inputData with
           | None => LOGE "Failed to get input data" [];; mret (-1)
           | Some inputData =>
               t ← tensor_at interpreterPtr p;
               d ← memcpy (data_f t) (cells inputData) (float_bytes dataSize);
               store_tensor_data interpreterPtr p d;;
               ReleaseFloatArrayElements data inputData JNI_ABORT;;
               mret 0
           end
       end)
      (fun what =>
         LOGE "Exception setting input tensor: %s" [ArgStr what];; mret (-1)).

Definition Java_com_arlinguasphere_TFLitePlugin_invoke (interpreterPtr : jlong) : M jint :=
  if interpreterPtr =? 0 then
    LOGE "Invalid interpreter pointer" [];; mret (-1)
  else
    try_catch
      (it ← the_interpreter interpreterPtr;
       '(st, it') ← call (Invoke E it);
       set_interpreter interpreterPtr (Some it');;
       if is_ok st then mret 0
       else (LOGE "Failed to invoke interpreter" [];; mret (-1)))
      (fun what =>
         LOGE "Exception during inference: %s" [ArgStr what];; mret (-1)).

Definition Java_com_arlinguasphere_TFLitePlugin_getOutputTensor (interpreterPtr : jlong) (outputIndex : jint)
    (output : jarray) (outputSize : jint) : M jint :=
  if interpreterPtr =? 0 then
    LOGE "Invalid interpreter pointer" [];; mret (-1)
  else
    try_catch
      (it ← the_interpreter interpreterPtr;
       output_tensor ← call (output_tensor E it (to_size_t outputIndex));
       match output_tensor with
       | None =>
           LOGE "Failed to get output tensor %d" [ArgInt outputIndex];; mret (-1)
       | Some p =>
           outputData ← GetFloatArrayElements output;
           match outputData with
           | None => LOGE "Failed to get output array" [];; mret (-1)
           | Some outputData =>
               t ← tensor_at interpreterPtr p;
               d ← memcpy (cells outputData) (data_f t) (float_bytes outputSize);
               outputData ← store_elements FLOAT outputData d;
               ReleaseFloatArrayElements output outputData 0;;
               mret 0
           end
       end)
      (fun what =>
         LOGE "Exception getting output tensor: %s" [ArgStr what];; mret (-1)).

Definition Java_com_arlinguasphere_TFLitePlugin_getInputTensorCount (interpreterPtr : jlong) : M jint :=
  if interpreterPtr =? 0 then mret 0
  else
    it ← the_interpreter interpreterPtr;
    v ← call (inputs E it);
    mret (to_jint (Z.of_nat (length v))).

Definition Java_com_arlinguasphere_TFLitePlugin_getOutputTensorCount (interpreterPtr : jlong) : M jint :=
  if interpreterPtr =? 0 then mret 0
  else
    it ← the_interpreter interpreterPtr;
    v ← call (outputs E it);
    mret (to_jint (Z.of_nat (length v))).

(** The [for] loop of the two shape queries, from [i] on:
    [for (; i < dims->size && i < env->GetArrayLength(shape); i++)
       shapeData[i] = dims->data[i];]
    [fuel] bounds the number of tests of the condition. *)
Fixpoint shape_loop (fuel : nat) (i : Z) (dims : list Z) (shape : jarray)
    (shapeData : elements) : M elements :=
  match fuel with
  | O => undefined
  | S fuel' =>
      if i <? Z.of_nat (length dims) then
        len ← GetArrayLength INT shape;
        if i <? len then
          match dims !! Z.to_nat i with
          | Some d =>
              if (Z.to_nat i <? length (cells shapeData))%nat then
                shapeData' ← store_elements INT shapeData
                               (<[Z.to_nat i := d]> (cells shapeData));
                shape_loop fuel' (i + 1) dims shape shapeData'
              else undefined
          | None => undefined
          end
        else mret shapeData
      else mret shapeData
  end.

Definition copy_shape (dims : list Z) (shape : jarray) (shapeData : elements) : M elements :=
  shape_loop (S (length dims)) 0 dims shape shapeData.

Definition Java_com_arlinguasphere_TFLitePlugin_getInputTensorShape (interpreterPtr : jlong) (inputIndex : jint)
    (shape : jarray) : M unit :=
  if interpreterPtr =? 0 then mret tt
  else
    try_catch
      (it ← the_interpreter interpreterPtr;
       input_tensor ← call (input_tensor E it (to_size_t inputIndex));
       match input_tensor with
       | None => mret tt
       | Some p =>
           shapeData ← GetIntArrayElements shape;
           match shapeData with
           | None => mret tt
           | Some shapeData =>
               t ← tensor_at interpreterPtr p;
               shapeData ← copy_shape (dims t) shape shapeData;
               ReleaseIntArrayElements shape shapeData 0
           end
       end)
      (fun what =>
         LOGE "Exception getting input tensor shape: %s" [ArgStr what]).

Definition Java_com_arlinguasphere_TFLitePlugin_getOutputTensorShape (interpreterPtr : jlong) (outputIndex : jint)
    (shape : jarray) : M unit :=
  if interpreterPtr =? 0 then mret tt
  else
    try_catch
      (it ← the_interpreter interpreterPtr;
       output_tensor ← call (output_tensor E it (to_size_t outputIndex));
       match output_tensor with
       | None => mret tt
       | Some p =>
           shapeData ← GetIntArrayElements shape;
           match shapeData with
           | None => mret tt
           | Some shapeData =>
               t ← tensor_at interpreterPtr p;
               shapeData ← copy_shape (dims t) shape shapeData;
               ReleaseIntArrayElements shape shapeData 0
           end
       end)
      (fun what =>
         LOGE "Exception getting output tensor shape: %s" [ArgStr what]).

End Bridge.

(** The entry points under the names the Java side declares them with. *)
Abbreviation createInterpreter := Java_com_arlinguasphere_TFLitePlugin_createInterpreter.
Abbreviation destroyInterpreter := Java_com_arlinguasphere_TFLitePlugin_destroyInterpreter.
Abbreviation setInputTensor := Java_com_arlinguasphere_TFLitePlugin_setInputTensor.
Abbreviation invoke := Java_com_arlinguasphere_TFLitePlugin_invoke.
Abbreviation getOutputTensor := Java_com_arlinguasphere_TFLitePlugin_getOutputTensor.
Abbreviation getInputTensorCount := Java_com_arlinguasphere_TFLitePlugin_getInputTensorCount.
Abbreviation getOutputTensorCount := Java_com_arlinguasphere_TFLitePlugin_getOutputTensorCount.
Abbreviation getInputTensorShape := Java_com_arlinguasphere_TFLitePlugin_getInputTensorShape.
Abbreviation getOutputTensorShape := Java_com_arlinguasphere_TFLitePlugin_getOutputTensorShape.

(** One inference: bind the input, run, read the output. *)
Definition inference (E : Engine) (h i data n j output m : Z) : M (Z * Z * Z) :=
  s1 ← setInputTensor E h i data n;
  s2 ← invoke E h;
  s3 ← getOutputTensor E h j output m;
  mret (s1, s2, s3).

(** ** A small engine to run the bridge on

    One input slot of shape [1,4] (tensor 0) and one output slot of shape
    [1,2] (tensor 1); the forward pass writes the sums of the two halves
    of the input.  The first byte of the model buffer selects how loading
    goes: an empty buffer does not parse, 1 makes the builder leave the
    interpreter empty, 2 makes tensor allocation fail, 3 makes the parser
    throw. *)

Module Demo.

Definition blank (mdl : FlatBufferModel) : Interpreter :=
  Interp [Tensor [1; 4] []; Tensor [1; 2] []] 1 mdl.

Definition allocate (it : Interpreter) : Interpreter :=
  Interp [Tensor [1; 4] [0; 0; 0; 0]; Tensor [1; 2] [0; 0]] (num_threads it) (graph it).

Definition sum (l : list Z) : Z := foldr Z.add 0 l.

Definition forward (it : Interpreter) : Interpreter :=
  let x := default [] (data_f <$> tensors it !! 0%nat) in
  Interp [Tensor [1; 4] x; Tensor [1; 2] [sum (take 2 x); sum (drop 2 x)]]
         (num_threads it) (graph it).

Definition slot (at_ : nat) (k : Z) : option nat :=
  if k =? 0 then Some at_ else None.

Definition engine : Engine := {|
  BuildFromBuffer bytes size :=
    match bytes with
    | [] => Ret None
    | 3 :: _ => Throw (StdException "bad flatbuffer")
    | _ => Ret (Some (FlatBuffer (take (Z.to_nat size) bytes)))
    end;
  InterpreterBuilder mdl :=
    match buffer mdl with
    | 1 :: _ => Ret None
    | _ => Ret (Some (blank mdl))
    end;
  AllocateTensors it :=
    match buffer (graph it) with
    | 2 :: _ => Ret (kTfLiteError, it)
    | _ => Ret (kTfLiteOk, allocate it)
    end;
  SetNumThreads it n := Ret (kTfLiteOk, Interp (tensors it) n (graph it));
  Invoke it := Ret (kTfLiteOk, forward it);
  input_tensor it k := Ret (slot 0 k);
  output_tensor it k := Ret (slot 1 k);
  inputs it := Ret [0];
  outputs it := Ret [1]
|}.

(** The same engine with a forward pass that raises something that is
    not a [std::exception], and slot tables that raise one. *)
Definition faulty : Engine := {|
  BuildFromBuffer := BuildFromBuffer engine;
  InterpreterBuilder := InterpreterBuilder engine;
  AllocateTensors := AllocateTensors engine;
  SetNumThreads := SetNumThreads engine;
  Invoke it := Throw ForeignFault;
  input_tensor := input_tensor engine;
  output_tensor := output_tensor engine;
  inputs it := Throw (StdException "inputs");
  outputs it := Throw (StdException "outputs")
|}.

(** The same engine with a forward pass and slot accessors that raise
    a [std::exception]. *)
Definition throwing : Engine := {|
  BuildFromBuffer := BuildFromBuffer engine;
  InterpreterBuilder := InterpreterBuilder engine;
  AllocateTensors := AllocateTensors engine;
  SetNumThreads := SetNumThreads engine;
  Invoke it := Throw (StdException "bad_alloc");
  input_tensor it k := Throw (StdException "out_of_range");
  output_tensor it k := Throw (StdException "out_of_range");
  inputs := inputs engine;
  outputs := outputs engine
|}.

Definition session : Interpreter := allocate (blank (FlatBuffer [7])).

(** A world with one live session at address 1, model buffers in the
    byte arrays 10 (loads), 11 (does not parse), 12 (builder fails),
    13 (allocation fails) and 14 (parser throws), float arrays 20
    (input), 21 and 22 (outputs of three and two cells) and int arrays
    30 (one cell) and 31 (three cells). *)
Definition world (a : elem_access) : World := {|
  heap := {[ 1 := Context (Some (FlatBuffer [7])) (Some session) ]};
  byte_arrays := {[ 10 := [7]; 11 := []; 12 := [1]; 13 := [2]; 14 := [3] ]};
  float_arrays := {[ 20 := [1; 2; 3; 4]; 21 := [9; 9; 9]; 22 := [8; 8] ]};
  int_arrays := {[ 30 := [0]; 31 := [0; 0; 0] ]};
  vm_access := fun _ => a;
  borrowed := [];
  logcat := []
|}.

(** The world after one inference and after a second one on the same
    session, with the same input. *)
Definition once : World :=
  match inference engine 1 0 20 4 0 22 2 (world Copied) with
  | Done _ w' => w'
  | _ => world Copied
  end.

Definition twice : World :=
  match inference engine 1 0 20 4 0 22 2 once with
  | Done _ w' => w'
  | _ => once
  end.

Definition context : TFLiteContext :=
  Context (Some (FlatBuffer [7])) (Some session).

End Demo.

(** * Vocabulary of the properties *)

(** The world a run ends in, when it ends (normally or by a fault). *)
Definition final {A} (r : result A) : option World :=
  match r with
  | Done _ w => Some w
  | Raise _ w => Some w
  | Undefined => None
  end.

(** [h] is a live session of [w] with interpreter [it]. *)
Definition live (w : World) (h : Z) (it : Interpreter) : Prop :=
  h ≠ 0 ∧ ∃ c, heap w !! h = Some c ∧ interpreter c = Some it.

(** The part of the world made of buffers: session state, Java arrays
    and the element buffers lent to native code. *)
Definition same_buffers (w w' : World) : Prop :=
  heap w' = heap w ∧ byte_arrays w' = byte_arrays w ∧
  float_arrays w' = float_arrays w ∧ int_arrays w' = int_arrays w ∧
  borrowed w' = borrowed w.

Definition error_line (f : string) (args : list log_arg) : log_line :=
  LogLine ANDROID_LOG_ERROR LOG_TAG f args.

Definition logged (l : log_line) (w : World) : World :=
  set_logcat (fun ls => ls ++ [l]) w.

(** [post m w Q X U]: started in [w], [m] ends in a state satisfying [Q]
    when it completes and [X] when it raises; [U] says whether it may
    have no defined behaviour. *)
Definition post {A} (m : M A) (w : World)
    (Q : A → World → Prop) (X : fault → World → Prop) (U : Prop) : Prop :=
  match m w with
  | Done a w' => Q a w'
  | Raise f w' => X f w'
  | Undefined => U
  end.

(** The two ways a status-returning entry point comes back: 0 with
    nothing logged, or -1 with one more error line in the log. *)
Definition status_outcome (w : World) (s : Z) (w' : World) : Prop :=
  (s = 0 ∧ logcat w' = logcat w) ∨
  (s = -1 ∧ ∃ f args, logcat w' = logcat w ++ [error_line f args]).

(** The session at [h] after [d] has been stored in its tensor [p]. *)
Definition with_slot_data (h : Z) (c : TFLiteContext) (it : Interpreter)
    (p : nat) (t : TfLiteTensor) (d : list Z) (w : World) : World :=
  set_heap (<[h := Context (model c) (Some (with_tensor it p (with_data t d)))]>) w.

(** What [getOutputTensor] leaves in the world on its successful path:
    the output array holds the first [n] cells of the tensor followed by
    its own old cells from [n] on. *)
Definition with_output (output : Z) (t : TfLiteTensor) (old : list Z) (n : Z)
    (w : World) : World :=
  set_arrays FLOAT
    (<[output := take (Z.to_nat n) (data_f t) ++ drop (Z.to_nat n) old]>) w.

(** The cells of the destination after the loop has run from [i] on. *)
Fixpoint fill (fuel i : nat) (dims cells : list Z) : list Z :=
  match fuel with
  | O => cells
  | S fuel' =>
      if ((i <? length dims) && (i <? length cells))%nat then
        match dims !! i with
        | Some d => fill fuel' (S i) dims (<[i := d]> cells)
        | None => cells
        end
      else cells
  end.

(** The destination after the whole loop: the first
    [min rank capacity] extents, then the destination's own cells. *)
Definition truncated_fill (dims old : list Z) : list Z :=
  take (length dims `min` length old) dims ++
  drop (length dims `min` length old) old.

(** An entry point fails cleanly with value [a] and log line [l]: it
    returns [a], the line is the only thing added to the log, and every
    buffer of the world, the native heap included, is as before. *)
Definition fails_with {A} (r : result A) (a : A) (w : World) (l : log_line) : Prop :=
  ∃ w', r = Done a w' ∧ same_buffers w w' ∧ logcat w' = logcat w ++ [l].

(** The faults an entry point with a recovery boundary lets through are
    not [std::exception]s. *)
Definition only_foreign {A} (m : M A) : Prop :=
  ∀ w, post m w (fun _ _ => True) (fun f _ => f = ForeignFault) True.

(** Some library call made while loading raises [what]. *)
Definition loading_raises (E : Engine) (bytes : list Z) (what : string) : Prop :=
  let size := Z.of_nat (length bytes) in
  BuildFromBuffer E bytes size = Throw (StdException what) ∨
  ∃ mdl, BuildFromBuffer E bytes size = Ret (Some mdl) ∧
    (InterpreterBuilder E mdl = Throw (StdException what) ∨
     ∃ it, InterpreterBuilder E mdl = Ret (Some it) ∧
       (AllocateTensors E it = Throw (StdException what) ∨
        ∃ it1, AllocateTensors E it = Ret (kTfLiteOk, it1) ∧
               SetNumThreads E it1 CONTEXT_THREADS = Throw (StdException what))).

(** The cells an input or output slot holds, when the engine resolves
    the slot to a tensor of the interpreter. *)
Definition input_data (E : Engine) (it : Interpreter) (s : Z) : option (list Z) :=
  match input_tensor E it s with
  | Ret (Some p) => data_f <$> tensors it !! p
  | _ => None
  end.

Definition output_data (E : Engine) (it : Interpreter) (s : Z) : option (list Z) :=
  match output_tensor E it s with
  | Ret (Some p) => data_f <$> tensors it !! p
  | _ => None
  end.

(** A deterministic engine: for a given model, the status and the
    contents of the output slots after a forward pass are a function of
    the contents of the input slots before it. *)
Definition deterministic (E : Engine) : Prop :=
  ∀ a b, graph a = graph b → (∀ s, input_data E a s = input_data E b s) →
    match Invoke E a, Invoke E b with
    | Ret (sa, a'), Ret (sb, b') =>
        sa = sb ∧ ∀ s, output_data E a' s = output_data E b' s
    | Throw fa, Throw fb => fa = fb
    | _, _ => False
    end.

(** Which tensor a slot designates does not depend on what the tensors
    hold. *)
Definition slots_fixed (E : Engine) : Prop :=
  ∀ it p t s, input_tensor E (with_tensor it p t) s = input_tensor E it s.

(** The session is ready for an inference on input slot [i] with the
    cells [xs] of array [data]: the slot is tensor [p], which has room
    for exactly [xs] and is designated by no other slot. *)
Definition ready (E : Engine) (w : World) (h i data : Z) (xs : list Z)
    (it : Interpreter) (p : nat) : Prop :=
  live w h it ∧
  input_tensor E it (to_size_t i) = Ret (Some p) ∧
  (∃ t, tensors it !! p = Some t ∧ length (data_f t) = length xs) ∧
  float_arrays w !! data = Some xs ∧
  Z.of_nat (length xs) < 2 ^ 31 ∧
  (∀ s, s ≠ to_size_t i → input_tensor E it s ≠ Ret (Some p)).

(** Every Java array of the world is as before. *)
Definition same_arrays (w w' : World) : Prop :=
  byte_arrays w' = byte_arrays w ∧ float_arrays w' = float_arrays w ∧
  int_arrays w' = int_arrays w.

(** Every session other than the one at [h] is as before. *)
Definition others_untouched (h : Z) (w w' : World) : Prop :=
  ∀ h', h' ≠ h → heap w' !! h' = heap w !! h'.

(** Of a table of arrays, only the array [a] may have changed, and it
    has kept its length. *)
Definition only_array_changed (a : Z) (m m' : gmap Z (list Z)) : Prop :=
  (∀ b, b ≠ a → m' !! b = m !! b) ∧
  (∀ l, m !! a = Some l → ∃ l', m' !! a = Some l' ∧ length l' = length l).

(** The world an entry point returns in, when it returns. *)
Definition returned {A} (r : result A) : option World :=
  match r with
  | Done _ w => Some w
  | _ => None
  end.

Definition created_line : log_line :=
  LogLine ANDROID_LOG_DEBUG LOG_TAG "TensorFlow Lite interpreter created successfully" [].

Definition destroyed_line : log_line :=
  LogLine ANDROID_LOG_DEBUG LOG_TAG "TensorFlow Lite interpreter destroyed" [].

(** The log after a call: the old lines followed by at most one new
    line, written under the bridge's tag. *)
Definition logs_at_most_one_line (w w' : World) : Prop :=
  ∃ ls, logcat w' = logcat w ++ ls ∧ (length ls ≤ 1)%nat ∧
        Forall (fun l => tag l = LOG_TAG) ls.

(** A caller that creates a session and destroys it at once. *)
Definition create_and_destroy (E : Engine) (modelData : Z) : M Z :=
  h ← createInterpreter E modelData;
  destroyInterpreter h;;
  mret h.

(** ** More engines and worlds to run the bridge on *)

Module Lab.

(** An engine whose builder raises something that is not a
    [std::exception]. *)
Definition foreign_loader : Engine := {|
  BuildFromBuffer := BuildFromBuffer Demo.engine;
  InterpreterBuilder mdl := Throw ForeignFault;
  AllocateTensors := AllocateTensors Demo.engine;
  SetNumThreads := SetNumThreads Demo.engine;
  Invoke := Invoke Demo.engine;
  input_tensor := input_tensor Demo.engine;
  output_tensor := output_tensor Demo.engine;
  inputs := inputs Demo.engine;
  outputs := outputs Demo.engine
|}.

(** An identity model: its one output slot is its one input slot,
    tensor 0. *)
Definition loopback : Engine := {|
  BuildFromBuffer := BuildFromBuffer Demo.engine;
  InterpreterBuilder := InterpreterBuilder Demo.engine;
  AllocateTensors := AllocateTensors Demo.engine;
  SetNumThreads := SetNumThreads Demo.engine;
  Invoke it := Ret (kTfLiteOk, it);
  input_tensor it k := Ret (Demo.slot 0 k);
  output_tensor it k := Ret (Demo.slot 0 k);
  inputs it := Ret [0];
  outputs it := Ret [0]
|}.

(** An engine whose forward pass reports an error. *)
Definition failing : Engine := {|
  BuildFromBuffer := BuildFromBuffer Demo.engine;
  InterpreterBuilder := InterpreterBuilder Demo.engine;
  AllocateTensors := AllocateTensors Demo.engine;
  SetNumThreads := SetNumThreads Demo.engine;
  Invoke it := Ret (kTfLiteError, it);
  input_tensor := input_tensor Demo.engine;
  output_tensor := output_tensor Demo.engine;
  inputs := inputs Demo.engine;
  outputs := outputs Demo.engine
|}.

(** An engine whose slot accessors do not compare the index with the
    size of the slot table: whatever the index, the input accessor
    answers tensor 0 and the output accessor tensor 1.  Its tables
    declare one input and one output slot, as those of [Demo.engine]. *)
Definition unchecked : Engine := {|
  BuildFromBuffer := BuildFromBuffer Demo.engine;
  InterpreterBuilder := InterpreterBuilder Demo.engine;
  AllocateTensors := AllocateTensors Demo.engine;
  SetNumThreads := SetNumThreads Demo.engine;
  Invoke := Invoke Demo.engine;
  input_tensor it k := Ret (Some 0%nat);
  output_tensor it k := Ret (Some 1%nat);
  inputs := inputs Demo.engine;
  outputs := outputs Demo.engine
|}.

(** The world of [Demo.world] with a second live session at address 2
    and a second input array 23. *)
Definition world (a : elem_access) : World :=
  set_arrays FLOAT (<[23 := [5; 6; 7; 8]]>)
    (set_heap (<[2 := Demo.context]>) (Demo.world a)).

End Lab.

(** * Proofs *)

(** ** A postcondition calculus for the monad *)

Section PostRules.
Context {A B : Type}.
Implicit Types (Q : A → World → Prop) (X : fault → World → Prop) (U : Prop).

Lemma post_Done (m : M A) w Q X U a w' :
  post m w Q X U → m w = Done a w' → Q a w'.
Proof. unfold post. intros H Hm. by rewrite Hm in H. Qed.

Lemma post_Raise (m : M A) w Q X U f w' :
  post m w Q X U → m w = Raise f w' → X f w'.
Proof. unfold post. intros H Hm. by rewrite Hm in H. Qed.

(** Total correctness: nothing raised, nothing undefined. *)
Lemma post_returns (m : M A) w a w' :
  post m w (fun b w1 => b = a ∧ w1 = w') (fun _ _ => False) False →
  m w = Done a w'.
Proof. unfold post. destruct (m w) as [b w1| |]; [by intros [-> ->] | done | done]. Qed.

Lemma post_ret (a : A) w Q X U : Q a w → post (mret a) w Q X U.
Proof. done. Qed.

Lemma post_undefined w Q X U : U → post (@undefined A) w Q X U.
Proof. done. Qed.

Lemma post_bind (m : M B) (k : B → M A) w Q X U :
  post m w (fun b w1 => post (k b) w1 Q X U) X U → post (m ≫= k) w Q X U.
Proof. unfold post, mbind, M_bind. by destruct (m w). Qed.

Lemma post_try_catch (body : M A) (handler : string → M A) w Q X U :
  post body w Q
    (fun f w1 => match f with
                 | StdException what => post (handler what) w1 Q X U
                 | ForeignFault => X ForeignFault w1
                 end) U →
  post (try_catch body handler) w Q X U.
Proof. unfold post, try_catch. destruct (body w) as [| [] |]; auto. Qed.

Lemma post_call (o : outcome A) w Q X U :
  match o with Ret a => Q a w | Throw f => X f w end → post (call o) w Q X U.
Proof. unfold post, call. by destruct o. Qed.
End PostRules.

Section PrimRules.
Context {X : fault → World → Prop} {U : Prop}.

Lemma post_modify f w (Q : unit → World → Prop) :
  Q tt (f w) → post (modify f) w Q X U.
Proof. done. Qed.

Lemma post_LOGE f args w (Q : unit → World → Prop) :
  Q tt (logged (error_line f args) w) → post (LOGE f args) w Q X U.
Proof. done. Qed.

Lemma post_LOGD f args w (Q : unit → World → Prop) :
  Q tt (logged (LogLine ANDROID_LOG_DEBUG LOG_TAG f args) w) →
  post (LOGD f args) w Q X U.
Proof. done. Qed.

Lemma post_deref p w (Q : TFLiteContext → World → Prop) :
  match heap w !! p with Some c => Q c w | None => U end →
  post (deref p) w Q X U.
Proof. unfold post, deref. by destruct (heap w !! p). Qed.

Lemma post_the_interpreter p w (Q : Interpreter → World → Prop) :
  match heap w !! p with
  | Some c => match interpreter c with Some it => Q it w | None => U end
  | None => U
  end →
  post (the_interpreter p) w Q X U.
Proof.
  intros H. apply post_bind, post_deref.
  destruct (heap w !! p) as [c|]; [|done].
  by destruct (interpreter c).
Qed.

Lemma post_set_interpreter p i w (Q : unit → World → Prop) :
  match heap w !! p with
  | Some c => Q tt (set_heap (<[p := Context (model c) i]>) w)
  | None => U
  end →
  post (set_interpreter p i) w Q X U.
Proof.
  intros H. apply post_bind, post_deref. by destruct (heap w !! p).
Qed.

Lemma post_set_model p m w (Q : unit → World → Prop) :
  match heap w !! p with
  | Some c => Q tt (set_heap (<[p := Context m (interpreter c)]>) w)
  | None => U
  end →
  post (set_model p m) w Q X U.
Proof.
  intros H. apply post_bind, post_deref. by destruct (heap w !! p).
Qed.

Lemma post_delete_context p w (Q : unit → World → Prop) :
  match heap w !! p with
  | Some c => Q tt (set_heap (delete p) w)
  | None => U
  end →
  post (delete_context p) w Q X U.
Proof.
  intros H. apply post_bind, post_deref. by destruct (heap w !! p).
Qed.

Lemma post_tensor_at h p w (Q : TfLiteTensor → World → Prop) :
  match heap w !! h with
  | Some c =>
      match interpreter c with
      | Some it => match tensors it !! p with Some t => Q t w | None => U end
      | None => U
      end
  | None => U
  end →
  post (tensor_at h p) w Q X U.
Proof.
  intros H. apply post_bind, post_the_interpreter.
  destruct (heap w !! h) as [c|]; [|done].
  destruct (interpreter c) as [it|]; [|done].
  by destruct (tensors it !! p).
Qed.

Lemma post_store_tensor_data h p d w (Q : unit → World → Prop) :
  match heap w !! h with
  | Some c =>
      match interpreter c with
      | Some it =>
          match tensors it !! p with
          | Some t =>
              Q tt (set_heap (<[h := Context (model c)
                                       (Some (with_tensor it p (with_data t d)))]>) w)
          | None => U
          end
      | None => U
      end
  | None => U
  end →
  post (store_tensor_data h p d) w Q X U.
Proof.
  intros H. apply post_bind, post_the_interpreter.
  destruct (heap w !! h) as [c|] eqn:Hc; [|done].
  destruct (interpreter c) as [it|]; [|done].
  destruct (tensors it !! p); [|done].
  apply post_set_interpreter. by rewrite Hc.
Qed.

Lemma post_memcpy dst src n w (Q : list Z → World → Prop) :
  match memcpy_cells dst src n with Some l => Q l w | None => U end →
  post (memcpy dst src n) w Q X U.
Proof. unfold post, memcpy. by destruct (memcpy_cells dst src n). Qed.

Lemma post_GetArrayLength k a w (Q : Z → World → Prop) :
  match arrays_of k w !! a with
  | Some l => Q (Z.of_nat (length l)) w
  | None => U
  end →
  post (GetArrayLength k a) w Q X U.
Proof. unfold post, GetArrayLength. by destruct (arrays_of k w !! a). Qed.

Lemma post_GetArrayElements k a w (Q : option elements → World → Prop) :
  match arrays_of k w !! a with
  | Some l =>
      match vm_access w a with
      | Inaccessible => Q None w
      | Direct => Q (Some (Elems a false l)) (set_borrowed (cons a) w)
      | Copied => Q (Some (Elems a true l)) (set_borrowed (cons a) w)
      end
  | None => U
  end →
  post (GetArrayElements k a) w Q X U.
Proof.
  unfold post, GetArrayElements.
  destruct (arrays_of k w !! a) as [l|]; [|done]. by destruct (vm_access w a).
Qed.

Lemma post_store_elements k e new w (Q : elements → World → Prop) :
  (if is_copy e then Q (Elems (origin e) true new) w
   else Q (Elems (origin e) false new) (set_arrays k (<[origin e := new]>) w)) →
  post (store_elements k e new) w Q X U.
Proof. unfold post, store_elements. by destruct (is_copy e). Qed.

Lemma post_ReleaseArrayElements k a e mode w (Q : unit → World → Prop) :
  match arrays_of k w !! a with
  | Some _ =>
      let w1 := if is_copy e && negb (mode =? JNI_ABORT)
                then set_arrays k (<[a := cells e]>) w else w in
      Q tt (if mode =? JNI_COMMIT then w1 else set_borrowed (release_one a) w1)
  | None => U
  end →
  post (ReleaseArrayElements k a e mode) w Q X U.
Proof.
  unfold post, ReleaseArrayElements. by destruct (arrays_of k w !! a).
Qed.

Lemma post_Release_abort k a e w (Q : unit → World → Prop) :
  match arrays_of k w !! a with
  | Some _ => Q tt (set_borrowed (release_one a) w)
  | None => U
  end →
  post (ReleaseArrayElements k a e JNI_ABORT) w Q X U.
Proof.
  intros H. apply post_ReleaseArrayElements.
  destruct (arrays_of k w !! a); [|done].
  by rewrite andb_false_r.
Qed.

Lemma post_Release_commit_free k a e w (Q : unit → World → Prop) :
  match arrays_of k w !! a with
  | Some _ =>
      Q tt (set_borrowed (release_one a)
              (if is_copy e then set_arrays k (<[a := cells e]>) w else w))
  | None => U
  end →
  post (ReleaseArrayElements k a e 0) w Q X U.
Proof.
  intros H. apply post_ReleaseArrayElements.
  destruct (arrays_of k w !! a); [|done].
  by rewrite andb_true_r.
Qed.
End PrimRules.

(** Reading a field of an updated world. *)
Ltac world_simpl :=
  cbn [heap byte_arrays float_arrays int_arrays vm_access borrowed logcat
       set_heap set_borrowed set_logcat set_arrays arrays_of logged
       is_copy origin cells is_ok] in *.

Ltac wp_rule :=
  lazymatch goal with
  | |- post (mret _) _ _ _ _ => apply post_ret
  | |- post undefined _ _ _ _ => apply post_undefined
  | |- post (_ ≫= _) _ _ _ _ => apply post_bind
  | |- post (try_catch _ _) _ _ _ _ => apply post_try_catch
  | |- post (call _) _ _ _ _ => apply post_call
  | |- post (LOGE _ _) _ _ _ _ => apply post_LOGE
  | |- post (LOGD _ _) _ _ _ _ => apply post_LOGD
  | |- post (the_interpreter _) _ _ _ _ => apply post_the_interpreter
  | |- post (set_interpreter _ _) _ _ _ _ => apply post_set_interpreter
  | |- post (set_model _ _) _ _ _ _ => apply post_set_model
  | |- post (delete_context _) _ _ _ _ => apply post_delete_context
  | |- post (tensor_at _ _) _ _ _ _ => apply post_tensor_at
  | |- post (store_tensor_data _ _ _) _ _ _ _ => apply post_store_tensor_data
  | |- post (memcpy _ _ _) _ _ _ _ => apply post_memcpy
  | |- post (GetArrayLength _ _) _ _ _ _ => apply post_GetArrayLength
  | |- post (GetArrayElements _ _) _ _ _ _ => apply post_GetArrayElements
  | |- post (store_elements _ _ _) _ _ _ _ => apply post_store_elements
  | |- post (ReleaseArrayElements _ _ _ JNI_ABORT) _ _ _ _ => apply post_Release_abort
  | |- post (ReleaseArrayElements _ _ _ 0) _ _ _ _ => apply post_Release_commit_free
  | |- post (ReleaseArrayElements _ _ _ _) _ _ _ _ => apply post_ReleaseArrayElements
  end.

(** One step: apply the rule of the statement in head position, or
    decide the test the code branches on, from the hypotheses when they
    settle it and by cases otherwise. *)
Ltac wp_case :=
  lazymatch goal with
  | |- match ?x with _ => _ end =>
      first [ match goal with H : x = _ |- _ => rewrite H end
            | destruct x eqn:? ]
  | |- post (match ?x with _ => _ end) _ _ _ _ =>
      first [ match goal with H : x = _ |- _ => rewrite H end
            | destruct x eqn:? ]
  end.

Ltac wp_step :=
  first [ progress (cbn beta iota zeta) | wp_rule | wp_case ];
  cbn beta iota zeta; world_simpl; rewrite ?lookup_insert_eq.

Ltac wp := repeat wp_step.

Lemma same_buffers_logged l w : same_buffers w (logged l w).
Proof. by repeat split. Qed.

Lemma live_the_interpreter w h it :
  live w h it → the_interpreter h w = Done it w.
Proof.
  intros [_ (c & Hc & Hi)]. unfold the_interpreter, deref, mbind, M_bind.
  rewrite Hc. by rewrite Hi.
Qed.

Lemma release_one_head a l : release_one a (a :: l) = l.
Proof. simpl. by rewrite Z.eqb_refl. Qed.

(** Two worlds are equal when their fields are. *)
Lemma world_eq w w' :
  heap w = heap w' → byte_arrays w = byte_arrays w' →
  float_arrays w = float_arrays w' → int_arrays w = int_arrays w' →
  vm_access w = vm_access w' → borrowed w = borrowed w' →
  logcat w = logcat w' → w = w'.
Proof. destruct w, w'; simpl; congruence. Qed.

Ltac world_eq :=
  apply world_eq; world_simpl; rewrite ?release_one_head; try done.

(** ** C1: the null handle *)

(** C1. [setInputTensor], [invoke] and [getOutputTensor] called with the
    handle 0 answer -1 at once: whatever the engine and the other
    arguments are, the only effect is the error line in the log; the
    sessions, the Java arrays and the lent element buffers are as
    before. *)
Theorem sentinel_handle_is_refused (E : Engine) (w : World) (index array size : Z) :
  let w' := logged (error_line "Invalid interpreter pointer" []) w in
  setInputTensor E 0 index array size w = Done (-1) w' ∧
  invoke E 0 w = Done (-1) w' ∧
  getOutputTensor E 0 index array size w = Done (-1) w' ∧
  same_buffers w w'.
Proof.
  repeat split.
Qed.

(** ** The two status values *)

Lemma setInputTensor_status E h i a n w :
  post (setInputTensor E h i a n) w (status_outcome w) (fun _ _ => True) True.
Proof.
  unfold setInputTensor. wp; unfold status_outcome; cbn; eauto 6.
Qed.

Lemma invoke_status E h w :
  post (invoke E h) w (status_outcome w) (fun _ _ => True) True.
Proof.
  unfold invoke. wp; unfold status_outcome; cbn; eauto 6.
Qed.

Lemma getOutputTensor_status E h i a n w :
  post (getOutputTensor E h i a n) w (status_outcome w) (fun _ _ => True) True.
Proof.
  unfold getOutputTensor. wp; unfold status_outcome; cbn; eauto 6.
Qed.

(** ** C7 and C10: what the two copies do *)

(** [float_bytes] of a count that fits the buffers is four times the
    count, and the copy moves that many cells. *)
Lemma memcpy_cells_fits dst src n :
  0 ≤ n ≤ Z.of_nat (length dst) → n ≤ Z.of_nat (length src) → n < 2 ^ 31 →
  memcpy_cells dst src (float_bytes n) =
    Some (take (Z.to_nat n) src ++ drop (Z.to_nat n) dst).
Proof.
  intros Hd Hs Hn. unfold memcpy_cells, float_bytes, to_size_t, sizeof_float.
  rewrite (Z.mod_small n) by lia.
  rewrite (Z.mod_small (n * 4)) by lia.
  rewrite Z.div_mul by lia.
  rewrite !andb_true_intro; [done|]. split; apply Z.leb_le; lia.
Qed.

Lemma memcpy_cells_inv dst src n l :
  0 ≤ n < 2 ^ 31 →
  memcpy_cells dst src (float_bytes n) = Some l →
  l = take (Z.to_nat n) src ++ drop (Z.to_nat n) dst ∧
  n ≤ Z.of_nat (length dst) ∧ n ≤ Z.of_nat (length src).
Proof.
  intros Hn. unfold memcpy_cells, float_bytes, to_size_t, sizeof_float.
  rewrite (Z.mod_small n) by lia.
  rewrite (Z.mod_small (n * 4)) by lia.
  rewrite Z.div_mul by lia.
  destruct (_ && _) eqn:Hb; [|done].
  apply andb_prop in Hb as [H1 H2]. apply Z.leb_le in H1, H2.
  intros [= <-]. split; [done|lia].
Qed.

Lemma memcpy_cells_negative dst src n :
  - 2 ^ 31 ≤ n < 0 → Z.of_nat (length src) < 2 ^ 31 →
  memcpy_cells dst src (float_bytes n) = None.
Proof.
  intros Hn Hs. unfold memcpy_cells, float_bytes, to_size_t, sizeof_float.
  rewrite <- (Z.mod_add n 1 (2 ^ 64)) by lia.
  rewrite (Z.mod_small (n + 1 * 2 ^ 64)) by lia.
  replace ((n + 1 * 2 ^ 64) * 4) with (2 ^ 64 + 4 * n + 3 * 2 ^ 64) by lia.
  rewrite Z.mod_add by lia. rewrite Z.mod_small by lia.
  rewrite andb_false_intro2; [done|]. apply Z.leb_gt. lia.
Qed.

Lemma setInputTensor_success E w h c it index p t data src n :
  h ≠ 0 → heap w !! h = Some c → interpreter c = Some it →
  input_tensor E it (to_size_t index) = Ret (Some p) →
  tensors it !! p = Some t →
  float_arrays w !! data = Some src →
  vm_access w data ≠ Inaccessible →
  0 ≤ n ≤ Z.of_nat (length src) → n ≤ Z.of_nat (length (data_f t)) → n < 2 ^ 31 →
  setInputTensor E h index data n w =
    Done 0 (with_slot_data h c it p t
              (take (Z.to_nat n) src ++ drop (Z.to_nat n) (data_f t)) w).
Proof.
  intros Hh Hc Hi Hp Ht Hsrc Hacc Hn1 Hn2 Hn3.
  apply Z.eqb_neq in Hh.
  assert (Hm := memcpy_cells_fits (data_f t) src n ltac:(lia) ltac:(lia) Hn3).
  apply post_returns. unfold setInputTensor, with_slot_data.
  wp; try done; (split; [done | world_eq]).
Qed.

Lemma setInputTensor_missing_slot E w h c it index data n :
  h ≠ 0 → heap w !! h = Some c → interpreter c = Some it →
  input_tensor E it (to_size_t index) = Ret None →
  setInputTensor E h index data n w =
    Done (-1) (logged (error_line "Failed to get input tensor %d" [ArgInt index]) w).
Proof.
  intros Hh Hc Hi Hp. apply Z.eqb_neq in Hh.
  apply post_returns. unfold setInputTensor. by wp.
Qed.

Lemma setInputTensor_inaccessible E w h c it index p data src n :
  h ≠ 0 → heap w !! h = Some c → interpreter c = Some it →
  input_tensor E it (to_size_t index) = Ret (Some p) →
  float_arrays w !! data = Some src →
  vm_access w data = Inaccessible →
  setInputTensor E h index data n w =
    Done (-1) (logged (error_line "Failed to get input data" []) w).
Proof.
  intros Hh Hc Hi Hp Hsrc Hacc. apply Z.eqb_neq in Hh.
  apply post_returns. unfold setInputTensor. by wp.
Qed.

Lemma setInputTensor_zero E h i a n w :
  post (setInputTensor E h i a n) w
    (fun s w' =>
       s = 0 →
       ∃ c it p t src d,
         heap w !! h = Some c ∧ interpreter c = Some it ∧
         input_tensor E it (to_size_t i) = Ret (Some p) ∧
         tensors it !! p = Some t ∧
         float_arrays w !! a = Some src ∧
         memcpy_cells (data_f t) src (float_bytes n) = Some d ∧
         w' = with_slot_data h c it p t d w)
    (fun _ _ => True) True.
Proof.
  unfold setInputTensor. wp; try done.
  all: intros _; simplify_eq/=; eexists _, _, _, _, _, _.
  all: repeat (split; [first [reflexivity | eassumption]|]).
  all: unfold with_slot_data; world_eq.
Qed.

(** When [setInputTensor] answers 0 on a Java array (fewer than 2^31
    cells, as every Java array has), the count was within both buffers
    and exactly that many cells were copied. *)
Lemma setInputTensor_zero_copied E h i a n w w' src :
  float_arrays w !! a = Some src → Z.of_nat (length src) < 2 ^ 31 →
  - 2 ^ 31 ≤ n < 2 ^ 31 →
  setInputTensor E h i a n w = Done 0 w' →
  ∃ c it p t,
    heap w !! h = Some c ∧ interpreter c = Some it ∧
    input_tensor E it (to_size_t i) = Ret (Some p) ∧
    tensors it !! p = Some t ∧
    0 ≤ n ≤ Z.of_nat (length src) ∧ n ≤ Z.of_nat (length (data_f t)) ∧
    w' = with_slot_data h c it p t
           (take (Z.to_nat n) src ++ drop (Z.to_nat n) (data_f t)) w.
Proof.
  intros Hsrc Hlen Hn Hrun.
  destruct (post_Done _ _ _ _ _ _ _ (setInputTensor_zero E h i a n w) Hrun eq_refl)
    as (c & it & p & t & src' & d & Hc & Hi & Hp & Ht & Hsrc' & Hcp & ->).
  simplify_eq. exists c, it, p, t.
  destruct (decide (n < 0)) as [Hneg|Hpos].
  - rewrite memcpy_cells_negative in Hcp by (done || lia). done.
  - apply memcpy_cells_inv in Hcp as (-> & Hd & Hs); [|lia].
    repeat split; try done; lia.
Qed.

Lemma setInputTensor_failure_frame E h i a n w :
  post (setInputTensor E h i a n) w
    (fun s w' => s ≠ 0 → heap w' = heap w) (fun _ _ => True) True.
Proof.
  unfold setInputTensor. wp; done.
Qed.

(** C7. For a live session [h] whose input slot [index] is tensor [p]:
    when the source array is accessible and [n] cells fit both buffers,
    [setInputTensor] answers 0 and the tensor's buffer holds the first
    [n] cells of the source followed by its own old cells from [n] on,
    its shape untouched and every other part of the world as before.
    Conversely, whenever it answers 0 on a Java array, [n] was within
    both buffers and that is the copy it made.  When the handle is 0, the slot is missing or the source array is
    inaccessible it answers -1, and whenever it answers something other
    than 0 the native heap, hence every tensor buffer, is unchanged. *)
Theorem setInputTensor_copies_exactly (E : Engine) (w : World) (h index data n : Z) :
  (∀ c it p t src,
     h ≠ 0 → heap w !! h = Some c → interpreter c = Some it →
     input_tensor E it (to_size_t index) = Ret (Some p) →
     tensors it !! p = Some t →
     float_arrays w !! data = Some src →
     vm_access w data ≠ Inaccessible →
     0 ≤ n ≤ Z.of_nat (length src) → n ≤ Z.of_nat (length (data_f t)) →
     n < 2 ^ 31 →
     setInputTensor E h index data n w =
       Done 0 (with_slot_data h c it p t
                 (take (Z.to_nat n) src ++ drop (Z.to_nat n) (data_f t)) w)) ∧
  (∀ w' src,
     float_arrays w !! data = Some src → Z.of_nat (length src) < 2 ^ 31 →
     - 2 ^ 31 ≤ n < 2 ^ 31 →
     setInputTensor E h index data n w = Done 0 w' →
     ∃ c it p t,
       heap w !! h = Some c ∧ interpreter c = Some it ∧
       input_tensor E it (to_size_t index) = Ret (Some p) ∧
       tensors it !! p = Some t ∧
       0 ≤ n ≤ Z.of_nat (length src) ∧ n ≤ Z.of_nat (length (data_f t)) ∧
       w' = with_slot_data h c it p t
              (take (Z.to_nat n) src ++ drop (Z.to_nat n) (data_f t)) w) ∧
  (h = 0 → ∃ w', setInputTensor E h index data n w = Done (-1) w' ∧ heap w' = heap w) ∧
  (∀ c it,
     h ≠ 0 → heap w !! h = Some c → interpreter c = Some it →
     input_tensor E it (to_size_t index) = Ret None →
     ∃ w', setInputTensor E h index data n w = Done (-1) w' ∧ heap w' = heap w) ∧
  (∀ c it p src,
     h ≠ 0 → heap w !! h = Some c → interpreter c = Some it →
     input_tensor E it (to_size_t index) = Ret (Some p) →
     float_arrays w !! data = Some src →
     vm_access w data = Inaccessible →
     ∃ w', setInputTensor E h index data n w = Done (-1) w' ∧ heap w' = heap w) ∧
  (∀ s w', setInputTensor E h index data n w = Done s w' → s ≠ 0 → heap w' = heap w).
Proof.
  split; [|split; [|split; [|split; [|split]]]].
  - intros. by apply setInputTensor_success.
  - intros. by eapply setInputTensor_zero_copied.
  - intros ->. eexists. split; [reflexivity | done].
  - intros. eexists. split; [by eapply setInputTensor_missing_slot | done].
  - intros. eexists. split; [by eapply setInputTensor_inaccessible | done].
  - intros s w' H. exact (post_Done _ _ _ _ _ _ _ (setInputTensor_failure_frame E h index data n w) H).
Qed.

Lemma setInputTensor_source_frame E h i a n w :
  post (setInputTensor E h i a n) w
    (fun _ w' => float_arrays w' = float_arrays w)
    (fun _ w' => float_arrays w' = float_arrays w) True.
Proof.
  unfold setInputTensor. wp; done.
Qed.

Lemma getOutputTensor_success E w h c it index p t output old n :
  h ≠ 0 → heap w !! h = Some c → interpreter c = Some it →
  output_tensor E it (to_size_t index) = Ret (Some p) →
  tensors it !! p = Some t →
  float_arrays w !! output = Some old →
  vm_access w output ≠ Inaccessible →
  0 ≤ n ≤ Z.of_nat (length old) → n ≤ Z.of_nat (length (data_f t)) → n < 2 ^ 31 →
  getOutputTensor E h index output n w = Done 0 (with_output output t old n w).
Proof.
  intros Hh Hc Hi Hp Ht Hold Hacc Hn1 Hn2 Hn3.
  apply Z.eqb_neq in Hh.
  assert (Hm := memcpy_cells_fits old (data_f t) n ltac:(lia) ltac:(lia) Hn3).
  apply post_returns. unfold getOutputTensor, with_output.
  wp; try done; (split; [done | world_eq]).
Qed.

(** C10. [setInputTensor] leaves every Java float array as it found it,
    on every path on which it ends, by a return or by a fault: the
    source elements are only read and are released with [JNI_ABORT].
    [getOutputTensor], on its successful path, does change the caller's
    array: released with mode 0, it holds the tensor's first [n] cells,
    whether the VM had handed out the array itself or a copy. *)
Theorem input_array_untouched_output_committed (E : Engine) (w : World) (h index arr n : Z) :
  (∀ w', final (setInputTensor E h index arr n w) = Some w' →
         float_arrays w' = float_arrays w) ∧
  (∀ c it p t old,
     h ≠ 0 → heap w !! h = Some c → interpreter c = Some it →
     output_tensor E it (to_size_t index) = Ret (Some p) →
     tensors it !! p = Some t →
     float_arrays w !! arr = Some old →
     vm_access w arr ≠ Inaccessible →
     0 ≤ n ≤ Z.of_nat (length old) → n ≤ Z.of_nat (length (data_f t)) →
     n < 2 ^ 31 →
     ∃ w', getOutputTensor E h index arr n w = Done 0 w' ∧
           float_arrays w' !! arr =
             Some (take (Z.to_nat n) (data_f t) ++ drop (Z.to_nat n) old)).
Proof.
  split.
  - intros w' H. pose proof (setInputTensor_source_frame E h index arr n w) as P.
    unfold post in P. destruct (setInputTensor E h index arr n w); by simplify_eq/=.
  - intros. eexists. split; [by eapply getOutputTensor_success|].
    unfold with_output. world_simpl. apply lookup_insert_eq.
Qed.

(** ** C6: the slot counts *)

(** A count that fits a [jint] is returned as it is. *)
Lemma to_jint_small z : 0 ≤ z < 2 ^ 31 → to_jint z = z.
Proof.
  intros Hz. unfold to_jint, wrap_signed.
  rewrite Z.mod_small; lia.
Qed.

(** C6. With the handle 0 both count queries answer 0 and change
    nothing.  For a live session they answer the number of entries of the
    slot table the engine reports ([inputs()] or [outputs()]), and change
    nothing. *)
Theorem tensor_counts (E : Engine) (w : World) :
  getInputTensorCount E 0 w = Done 0 w ∧
  getOutputTensorCount E 0 w = Done 0 w ∧
  (∀ h it v, live w h it → inputs E it = Ret v →
             Z.of_nat (length v) < 2 ^ 31 →
             getInputTensorCount E h w = Done (Z.of_nat (length v)) w) ∧
  (∀ h it v, live w h it → outputs E it = Ret v →
             Z.of_nat (length v) < 2 ^ 31 →
             getOutputTensorCount E h w = Done (Z.of_nat (length v)) w).
Proof.
  split; [done|]. split; [done|]. split.
  - intros h it v [Hh (c & Hc & Hi)] Hv Hlen. apply Z.eqb_neq in Hh.
    apply post_returns. unfold getInputTensorCount. wp.
    split; [|done]. apply to_jint_small. lia.
  - intros h it v [Hh (c & Hc & Hi)] Hv Hlen. apply Z.eqb_neq in Hh.
    apply post_returns. unfold getOutputTensorCount. wp.
    split; [|done]. apply to_jint_small. lia.
Qed.

(** ** C4: slots the engine does not resolve *)

Lemma getOutputTensor_missing_slot E w h c it index output n :
  h ≠ 0 → heap w !! h = Some c → interpreter c = Some it →
  output_tensor E it (to_size_t index) = Ret None →
  getOutputTensor E h index output n w =
    Done (-1) (logged (error_line "Failed to get output tensor %d" [ArgInt index]) w).
Proof.
  intros Hh Hc Hi Hp. apply Z.eqb_neq in Hh.
  apply post_returns. unfold getOutputTensor. by wp.
Qed.

Lemma getOutputTensor_inaccessible E w h c it index p output old n :
  h ≠ 0 → heap w !! h = Some c → interpreter c = Some it →
  output_tensor E it (to_size_t index) = Ret (Some p) →
  float_arrays w !! output = Some old →
  vm_access w output = Inaccessible →
  getOutputTensor E h index output n w =
    Done (-1) (logged (error_line "Failed to get output array" []) w).
Proof.
  intros Hh Hc Hi Hp Hsrc Hacc. apply Z.eqb_neq in Hh.
  apply post_returns. unfold getOutputTensor. by wp.
Qed.

(** The slot accessor is the only thing of the engine the two copies
    consult. *)
Lemma setInputTensor_accessor_only E E' h index arr n w :
  input_tensor E' = input_tensor E →
  setInputTensor E' h index arr n w = setInputTensor E h index arr n w.
Proof.
  intros H. unfold setInputTensor. by rewrite H.
Qed.

Lemma getOutputTensor_accessor_only E E' h index arr n w :
  output_tensor E' = output_tensor E →
  getOutputTensor E' h index arr n w = getOutputTensor E h index arr n w.
Proof.
  intros H. unfold getOutputTensor. by rewrite H.
Qed.

(** C4, as the code has it.  The bridge hands the index, converted to
    [size_t], to the engine's slot accessor and tests the pointer that
    comes back.  For a live session, when the accessor answers
    [nullptr], [setInputTensor] and [getOutputTensor] answer -1 and the
    only change to the world is the error line: no tensor buffer, no
    Java array and no lent element buffer is touched, and the caller's
    array is not even requested.  The index is compared with nothing
    else: the outcome is the same for every engine with the same
    accessor, whatever slot tables [inputs()] and [outputs()] declare,
    and when the accessor answers a tensor the copy is made into, or
    from, that tensor. *)
Theorem null_slot_is_refused (E : Engine) (w : World) (h : Z) (it : Interpreter)
    (index arr n : Z) :
  live w h it →
  (input_tensor E it (to_size_t index) = Ret None →
   ∃ w', setInputTensor E h index arr n w = Done (-1) w' ∧ same_buffers w w' ∧
         logcat w' = logcat w ++
           [error_line "Failed to get input tensor %d" [ArgInt index]]) ∧
  (output_tensor E it (to_size_t index) = Ret None →
   ∃ w', getOutputTensor E h index arr n w = Done (-1) w' ∧ same_buffers w w' ∧
         logcat w' = logcat w ++
           [error_line "Failed to get output tensor %d" [ArgInt index]]) ∧
  (∀ E', input_tensor E' = input_tensor E →
         setInputTensor E' h index arr n w = setInputTensor E h index arr n w) ∧
  (∀ E', output_tensor E' = output_tensor E →
         getOutputTensor E' h index arr n w = getOutputTensor E h index arr n w) ∧
  (∀ c p t src,
     heap w !! h = Some c →
     input_tensor E it (to_size_t index) = Ret (Some p) →
     tensors it !! p = Some t →
     float_arrays w !! arr = Some src →
     vm_access w arr ≠ Inaccessible →
     0 ≤ n ≤ Z.of_nat (length src) → n ≤ Z.of_nat (length (data_f t)) →
     n < 2 ^ 31 →
     setInputTensor E h index arr n w =
       Done 0 (with_slot_data h c it p t
                 (take (Z.to_nat n) src ++ drop (Z.to_nat n) (data_f t)) w)) ∧
  (∀ p t old,
     output_tensor E it (to_size_t index) = Ret (Some p) →
     tensors it !! p = Some t →
     float_arrays w !! arr = Some old →
     vm_access w arr ≠ Inaccessible →
     0 ≤ n ≤ Z.of_nat (length old) → n ≤ Z.of_nat (length (data_f t)) →
     n < 2 ^ 31 →
     getOutputTensor E h index arr n w = Done 0 (with_output arr t old n w)).
Proof.
  intros [Hh (c & Hc & Hi)].
  split; [|split; [|split; [|split; [|split]]]].
  - intros Hp. eexists. split; [|split; [apply same_buffers_logged | done]].
    by eapply setInputTensor_missing_slot.
  - intros Hp. eexists. split; [|split; [apply same_buffers_logged | done]].
    by eapply getOutputTensor_missing_slot.
  - intros E'. apply setInputTensor_accessor_only.
  - intros E'. apply getOutputTensor_accessor_only.
  - intros c' p t src Hc' Hp Ht Hsrc Hacc Hn1 Hn2 Hn3. simplify_eq.
    by apply setInputTensor_success.
  - intros p t old Hp Ht Hold Hacc Hn1 Hn2 Hn3.
    by eapply getOutputTensor_success.
Qed.

(** ** C5: the shape queries *)

Lemma fill_length fuel : ∀ i dims cells, length (fill fuel i dims cells) = length cells.
Proof.
  induction fuel as [|fuel IH]; intros i dims cells; [done|]. simpl.
  destruct (_ && _); [|done]. destruct (dims !! i); [|done].
  by rewrite IH, length_insert.
Qed.

Lemma fill_prefix fuel : ∀ i dims cells,
  (length dims - i < fuel)%nat →
  (i ≤ length dims `min` length cells)%nat →
  take i cells = take i dims →
  fill fuel i dims cells =
    take (length dims `min` length cells) dims ++
    drop (length dims `min` length cells) cells.
Proof.
  induction fuel as [|fuel IH]; intros i dims cells Hfuel Hi Hpre; [lia|].
  simpl. destruct (i <? length dims)%nat eqn:Hd; simpl.
  - apply Nat.ltb_lt in Hd.
    destruct (i <? length cells)%nat eqn:Hc.
    + apply Nat.ltb_lt in Hc.
      destruct (lookup_lt_is_Some_2 dims i Hd) as [d Hdi]. rewrite Hdi.
      rewrite IH; rewrite ?length_insert; try lia.
      * by rewrite drop_insert_lt by lia.
      * rewrite (take_S_r _ _ d) by (by apply list_lookup_insert_eq).
        rewrite (take_S_r dims _ d) by done.
        rewrite take_insert_ge by lia. by rewrite Hpre.
    + apply Nat.ltb_ge in Hc.
      assert (length dims `min` length cells = i)%nat as -> by lia.
      by rewrite <- Hpre, take_drop.
  - apply Nat.ltb_ge in Hd.
    assert (length dims `min` length cells = i)%nat as -> by lia.
    by rewrite <- Hpre, take_drop.
Qed.

Lemma elements_eta e : Elems (origin e) (is_copy e) (cells e) = e.
Proof. by destruct e. Qed.

Lemma shape_loop_run dims shape fuel : ∀ (i : nat) e w arr,
  origin e = shape →
  (length dims - i < fuel)%nat →
  int_arrays w !! shape = Some arr →
  length arr = length (cells e) →
  (is_copy e = false → arr = cells e) →
  shape_loop fuel (Z.of_nat i) dims shape e w =
    Done (Elems shape (is_copy e) (fill fuel i dims (cells e)))
         (if is_copy e then w
          else set_arrays INT (<[shape := fill fuel i dims (cells e)]>) w).
Proof.
  induction fuel as [|fuel IH]; intros i e w arr He Hfuel Harr Hlen Hdirect; [lia|].
  cbn [shape_loop fill].
  destruct (Z.of_nat i <? Z.of_nat (length dims)) eqn:Hd.
  2:{ apply Z.ltb_ge in Hd.
      assert ((i <? length dims)%nat = false) as -> by (apply Nat.ltb_ge; lia).
      cbn. rewrite <- He, elements_eta. f_equal.
      destruct (is_copy e) eqn:Hcopy; [done|].
      apply world_eq; world_simpl; try done.
      rewrite He. symmetry. apply insert_id. by rewrite Harr, Hdirect. }
  apply Z.ltb_lt in Hd.
  assert ((i <? length dims)%nat = true) as -> by (apply Nat.ltb_lt; lia).
  unfold mbind at 1. unfold M_bind, GetArrayLength. cbn [arrays_of]. rewrite Harr.
  destruct (Z.of_nat i <? Z.of_nat (length arr)) eqn:Hc.
  2:{ apply Z.ltb_ge in Hc.
      assert ((i <? length (cells e))%nat = false) as -> by (apply Nat.ltb_ge; lia).
      cbn. rewrite <- He, elements_eta. f_equal.
      destruct (is_copy e) eqn:Hcopy; [done|].
      apply world_eq; world_simpl; try done.
      rewrite He. symmetry. apply insert_id. by rewrite Harr, Hdirect. }
  apply Z.ltb_lt in Hc.
  assert ((i <? length (cells e))%nat = true) as Hce by (apply Nat.ltb_lt; lia).
  rewrite Hce. cbn [andb]. rewrite Nat2Z.id.
  destruct (lookup_lt_is_Some_2 dims i ltac:(lia)) as [d Hdi]. rewrite Hdi.
  unfold mbind, M_bind, store_elements.
  replace (Z.of_nat i + 1) with (Z.of_nat (S i)) by lia.
  destruct (is_copy e) eqn:Hcopy; rewrite Hce; cbn beta.
  - rewrite (IH (S i) _ _ arr); cbn [origin is_copy cells];
      rewrite ?length_insert; try done; lia.
  - rewrite (IH (S i) _ _ (<[i:=d]> (cells e))); cbn [origin is_copy cells];
      world_simpl; rewrite ?length_insert; try done; try lia.
    + f_equal. apply world_eq; world_simpl; try done.
      by rewrite He, insert_insert_eq.
    + rewrite He. apply lookup_insert_eq.
Qed.

Lemma post_copy_shape {X : fault → World → Prop} {U : Prop}
    dims shape e w arr (Q : elements → World → Prop) :
  origin e = shape →
  int_arrays w !! shape = Some arr →
  length arr = length (cells e) →
  (is_copy e = false → arr = cells e) →
  Q (Elems shape (is_copy e) (truncated_fill dims (cells e)))
    (if is_copy e then w
     else set_arrays INT (<[shape := truncated_fill dims (cells e)]>) w) →
  post (copy_shape dims shape e) w Q X U.
Proof.
  intros He Harr Hlen Hdirect HQ. unfold post, copy_shape.
  pose proof (shape_loop_run dims shape (S (length dims)) 0 e w arr
                He ltac:(lia) Harr Hlen Hdirect) as Hrun.
  change (Z.of_nat 0) with 0 in Hrun. rewrite Hrun.
  rewrite fill_prefix by (try done; lia). exact HQ.
Qed.

Lemma getInputTensorShape_fills E w h c it index p t shape old :
  h ≠ 0 → heap w !! h = Some c → interpreter c = Some it →
  input_tensor E it (to_size_t index) = Ret (Some p) →
  tensors it !! p = Some t →
  int_arrays w !! shape = Some old →
  vm_access w shape ≠ Inaccessible →
  getInputTensorShape E h index shape w =
    Done tt (set_arrays INT (<[shape := truncated_fill (dims t) old]>) w).
Proof.
  intros Hh Hc Hi Hp Ht Hold Hacc. apply Z.eqb_neq in Hh.
  apply post_returns. unfold getInputTensorShape.
  wp; try done.
  all: eapply (post_copy_shape _ _ _ _ old); world_simpl; try done.
  all: wp; rewrite ?lookup_insert_eq; try done.
  all: split; [done | world_eq].
Qed.

Lemma getOutputTensorShape_fills E w h c it index p t shape old :
  h ≠ 0 → heap w !! h = Some c → interpreter c = Some it →
  output_tensor E it (to_size_t index) = Ret (Some p) →
  tensors it !! p = Some t →
  int_arrays w !! shape = Some old →
  vm_access w shape ≠ Inaccessible →
  getOutputTensorShape E h index shape w =
    Done tt (set_arrays INT (<[shape := truncated_fill (dims t) old]>) w).
Proof.
  intros Hh Hc Hi Hp Ht Hold Hacc. apply Z.eqb_neq in Hh.
  apply post_returns. unfold getOutputTensorShape.
  wp; try done.
  all: eapply (post_copy_shape _ _ _ _ old); world_simpl; try done.
  all: wp; rewrite ?lookup_insert_eq; try done.
  all: split; [done | world_eq].
Qed.

(** C5. For a live session and a slot the engine resolves to tensor [t],
    with the destination array accessible, each shape query returns and
    leaves in the destination the first [min rank capacity] extents of
    [t], in order, followed by the destination's own cells from that
    position on; the array keeps its length, so nothing is written past
    its capacity, and nothing else in the world changes.  A destination
    shorter than the rank is filled completely and no error is
    reported. *)
Theorem shape_queries_truncate (E : Engine) (w : World) (h index shape : Z)
    (c : TFLiteContext) (it : Interpreter) (p : nat) (t : TfLiteTensor) (old : list Z) :
  h ≠ 0 → heap w !! h = Some c → interpreter c = Some it →
  tensors it !! p = Some t →
  int_arrays w !! shape = Some old →
  vm_access w shape ≠ Inaccessible →
  let k := (length (dims t) `min` length old)%nat in
  let new := take k (dims t) ++ drop k old in
  (input_tensor E it (to_size_t index) = Ret (Some p) →
   getInputTensorShape E h index shape w =
     Done tt (set_arrays INT (<[shape := new]>) w)) ∧
  (output_tensor E it (to_size_t index) = Ret (Some p) →
   getOutputTensorShape E h index shape w =
     Done tt (set_arrays INT (<[shape := new]>) w)) ∧
  length new = length old ∧
  (∀ i : nat, (i < k)%nat → new !! i = dims t !! i) ∧
  (∀ i : nat, (k ≤ i)%nat → new !! i = old !! i) ∧
  ((length old < length (dims t))%nat → new = take (length old) (dims t)).
Proof.
  intros Hh Hc Hi Ht Hold Hacc k new.
  assert (length (take k (dims t)) = k) as Hk by (rewrite length_take; lia).
  split; [|split; [|split; [|split; [|split]]]].
  - intros Hp. by eapply getInputTensorShape_fills.
  - intros Hp. by eapply getOutputTensorShape_fills.
  - unfold new. rewrite length_app, length_take, length_drop. lia.
  - intros i Hik. unfold new.
    rewrite lookup_app_l by lia. apply lookup_take_lt. lia.
  - intros i Hik. unfold new.
    rewrite lookup_app_r by lia. rewrite Hk, lookup_drop. f_equal. lia.
  - intros Hshort. unfold new.
    assert (k = length old) as -> by lia.
    by rewrite drop_all, app_nil_r.
Qed.

(** ** C3: failing to create a session *)

Lemma new_addr_bound (m : gmap Z TFLiteContext) :
  0 ≤ map_fold (fun k (_ : TFLiteContext) acc => Z.max k acc) 0 m ∧
  ∀ k, is_Some (m !! k) →
       k ≤ map_fold (fun k (_ : TFLiteContext) acc => Z.max k acc) 0 m.
Proof.
  apply (map_fold_weak_ind
           (fun r (m : gmap Z TFLiteContext) => 0 ≤ r ∧ ∀ k, is_Some (m !! k) → k ≤ r)).
  - split; [lia|]. intros k [x Hx]. by rewrite lookup_empty in Hx.
  - intros i x m' r Hi [Hr IH]. split; [lia|]. intros k Hk.
    destruct (decide (i = k)) as [->|Hne]; [lia|].
    rewrite lookup_insert_ne in Hk by done. specialize (IH k Hk). lia.
Qed.

(** [new] never answers null nor the address of a live object. *)
Lemma new_addr_fresh w : new_addr w ≠ 0 ∧ heap w !! new_addr w = None.
Proof.
  unfold new_addr. destruct (new_addr_bound (heap w)) as [H0 Hmax]. split; [lia|].
  destruct (heap w !! _) eqn:Hl; [|done].
  specialize (Hmax _ (mk_is_Some _ _ Hl)). lia.
Qed.

Lemma post_unique_scope {A} {X : fault → World → Prop} {U : Prop}
    (body : Z → M (A * bool)) w (Q : A → World → Prop) :
  post (body (new_addr w)) (set_heap (<[new_addr w := empty_context]>) w)
    (fun r w' => Q r.1 (if r.2 then w' else set_heap (delete (new_addr w)) w'))
    (fun f w' => X f (set_heap (delete (new_addr w)) w')) U →
  post (unique_scope body) w Q X U.
Proof.
  unfold post, unique_scope.
  by destruct (body _ _) as [[v []] w'|f w'|].
Qed.

(** Leaving the scope of a context that was never released gives the
    native heap back as it was. *)
Lemma scope_left (w : World) (x y : TFLiteContext) :
  delete (new_addr w) (<[new_addr w := x]> (<[new_addr w := y]> (heap w))) = heap w.
Proof.
  rewrite insert_insert_eq. apply delete_insert_id, new_addr_fresh.
Qed.

Lemma scope_left1 (w : World) (x : TFLiteContext) :
  delete (new_addr w) (<[new_addr w := x]> (heap w)) = heap w.
Proof. apply delete_insert_id, new_addr_fresh. Qed.

Lemma scope_left3 (w : World) (x y z : TFLiteContext) :
  delete (new_addr w)
    (<[new_addr w := x]> (<[new_addr w := y]> (<[new_addr w := z]> (heap w)))) = heap w.
Proof. rewrite insert_insert_eq. apply scope_left. Qed.

Lemma scope_left4 (w : World) (x y z u : TFLiteContext) :
  delete (new_addr w)
    (<[new_addr w := x]> (<[new_addr w := y]> (<[new_addr w := z]>
       (<[new_addr w := u]> (heap w))))) = heap w.
Proof. rewrite insert_insert_eq. apply scope_left3. Qed.

Ltac wp_create :=
  repeat first [ apply post_unique_scope; cbn beta iota zeta; world_simpl
               | wp_step ].

Lemma new_addr_borrowed f w : new_addr (set_borrowed f w) = new_addr w.
Proof. done. Qed.

Ltac scope_eq :=
  cbn [fst snd]; apply world_eq; world_simpl;
  rewrite ?new_addr_borrowed;
  rewrite ?release_one_head, ?scope_left4, ?scope_left3, ?scope_left, ?scope_left1;
  try done.

Lemma fails_with_logged {A} (r : result A) a w l :
  r = Done a (logged l w) → fails_with r a w l.
Proof. intros ->. exists (logged l w). split; [done|]. split; [apply same_buffers_logged | done]. Qed.

Section CreateFailures.
Variables (E : Engine) (w : World) (modelData : Z) (bytes : list Z).
Hypothesis Hbytes : byte_arrays w !! modelData = Some bytes.
Hypothesis Haccess : vm_access w modelData ≠ Inaccessible.

Lemma create_parse_failure :
  BuildFromBuffer E bytes (Z.of_nat (length bytes)) = Ret None →
  createInterpreter E modelData w =
    Done 0 (logged (error_line "Failed to create TensorFlow Lite model" []) w).
Proof.
  intros Hm. apply post_returns. unfold createInterpreter.
  wp_create; try done; (split; [done | scope_eq]).
Qed.

Lemma create_builder_failure mdl :
  BuildFromBuffer E bytes (Z.of_nat (length bytes)) = Ret (Some mdl) →
  InterpreterBuilder E mdl = Ret None →
  createInterpreter E modelData w =
    Done 0 (logged (error_line "Failed to create TensorFlow Lite interpreter" []) w).
Proof.
  intros Hm Hb. apply post_returns. unfold createInterpreter.
  wp_create; try done; (split; [done | scope_eq]).
Qed.

Lemma create_allocation_failure mdl it st it1 :
  BuildFromBuffer E bytes (Z.of_nat (length bytes)) = Ret (Some mdl) →
  InterpreterBuilder E mdl = Ret (Some it) →
  AllocateTensors E it = Ret (st, it1) →
  is_ok st = false →
  createInterpreter E modelData w =
    Done 0 (logged (error_line "Failed to allocate tensors" []) w).
Proof.
  intros Hm Hb Ha Hst. apply post_returns. unfold createInterpreter.
  wp_create; try done; (split; [done | scope_eq]).
Qed.
End CreateFailures.

(** C3. When the model bytes are accessible, [createInterpreter] answers
    the null handle 0 if the buffer does not parse ([BuildFromBuffer]
    answers no model), if the builder leaves the interpreter empty, or
    if [AllocateTensors] does not answer [kTfLiteOk].  Each of the three
    paths adds its own error line to the log, and the three lines
    differ.  In each case the world is otherwise as before the call: the
    context made for the attempt is gone from the native heap and the
    model bytes have been given back. *)
Theorem createInterpreter_fails_cleanly (E : Engine) (w : World) (modelData : Z)
    (bytes : list Z) :
  byte_arrays w !! modelData = Some bytes →
  vm_access w modelData ≠ Inaccessible →
  let r := createInterpreter E modelData w in
  let size := Z.of_nat (length bytes) in
  let parse_line := error_line "Failed to create TensorFlow Lite model" [] in
  let builder_line := error_line "Failed to create TensorFlow Lite interpreter" [] in
  let allocation_line := error_line "Failed to allocate tensors" [] in
  (BuildFromBuffer E bytes size = Ret None → fails_with r 0 w parse_line) ∧
  (∀ mdl, BuildFromBuffer E bytes size = Ret (Some mdl) →
          InterpreterBuilder E mdl = Ret None →
          fails_with r 0 w builder_line) ∧
  (∀ mdl it st it1,
     BuildFromBuffer E bytes size = Ret (Some mdl) →
     InterpreterBuilder E mdl = Ret (Some it) →
     AllocateTensors E it = Ret (st, it1) → st ≠ kTfLiteOk →
     fails_with r 0 w allocation_line) ∧
  parse_line ≠ builder_line ∧ parse_line ≠ allocation_line ∧
  builder_line ≠ allocation_line.
Proof.
  intros Hbytes Hacc r size parse_line builder_line allocation_line.
  split; [|split; [|split; [|done]]].
  - intros Hm. apply fails_with_logged. by eapply create_parse_failure.
  - intros mdl Hm Hb. apply fails_with_logged. by eapply create_builder_failure.
  - intros mdl it st it1 Hm Hb Ha Hst. apply fails_with_logged.
    eapply create_allocation_failure; eauto. by destruct st.
Qed.

(** ** C2: faults at the boundary *)

Lemma shape_loop_no_fault dims shape fuel : ∀ i e w f w',
  shape_loop fuel i dims shape e w ≠ Raise f w'.
Proof.
  induction fuel as [|fuel IH]; intros i e w f w'; [done|].
  cbn [shape_loop]. destruct (i <? _); [|done].
  unfold mbind at 1. unfold M_bind, GetArrayLength.
  destruct (arrays_of INT w !! shape); [|done].
  destruct (i <? _); [|done].
  destruct (dims !! Z.to_nat i); [|done].
  destruct (_ <? _)%nat; [|done].
  unfold mbind, M_bind, store_elements. destruct (is_copy e); apply IH.
Qed.

Lemma post_copy_shape_any {X : fault → World → Prop} {U : Prop}
    dims shape e w (Q : elements → World → Prop) :
  (∀ e' w', Q e' w') → U → post (copy_shape dims shape e) w Q X U.
Proof.
  intros HQ HU. unfold post, copy_shape.
  destruct (shape_loop _ _ _ _ _ _) eqn:Hl; [done| |done].
  by apply shape_loop_no_fault in Hl.
Qed.

Ltac wp_guarded :=
  repeat first [ apply post_unique_scope; cbn beta iota zeta; world_simpl
               | apply post_copy_shape_any; [intros ? ?|done]
               | wp_step ].

Lemma createInterpreter_only_foreign E modelData :
  only_foreign (createInterpreter E modelData).
Proof. intros w. unfold createInterpreter. wp_guarded; done. Qed.

Lemma setInputTensor_only_foreign E h i a n :
  only_foreign (setInputTensor E h i a n).
Proof. intros w. unfold setInputTensor. wp_guarded; done. Qed.

Lemma invoke_only_foreign E h : only_foreign (invoke E h).
Proof. intros w. unfold invoke. wp_guarded; done. Qed.

Lemma getOutputTensor_only_foreign E h i a n :
  only_foreign (getOutputTensor E h i a n).
Proof. intros w. unfold getOutputTensor. wp_guarded; done. Qed.

Lemma getInputTensorShape_only_foreign E h i a :
  only_foreign (getInputTensorShape E h i a).
Proof. intros w. unfold getInputTensorShape. wp_guarded; done. Qed.

Lemma getOutputTensorShape_only_foreign E h i a :
  only_foreign (getOutputTensorShape E h i a).
Proof. intros w. unfold getOutputTensorShape. wp_guarded; done. Qed.

Lemma create_exception E w modelData bytes what :
  byte_arrays w !! modelData = Some bytes →
  vm_access w modelData ≠ Inaccessible →
  loading_raises E bytes what →
  createInterpreter E modelData w =
    Done 0 (logged (error_line "Exception creating interpreter: %s" [ArgStr what]) w).
Proof.
  intros Hbytes Hacc Hraise. apply post_returns. unfold createInterpreter.
  destruct Hraise as [Hm | (mdl & Hm & [Hb | (it & Hb & [Ha | (it1 & Ha & Hn)])])].
  all: wp_create; try done; (split; [done | scope_eq]).
Qed.

Section Caught.
Variables (E : Engine) (w : World) (h : Z) (it : Interpreter) (what : string).
Hypothesis Hlive : live w h it.

Lemma setInputTensor_exception i a n :
  input_tensor E it (to_size_t i) = Throw (StdException what) →
  setInputTensor E h i a n w =
    Done (-1) (logged (error_line "Exception setting input tensor: %s" [ArgStr what]) w).
Proof.
  destruct Hlive as [Hh (c & Hc & Hi)]. apply Z.eqb_neq in Hh. intros Hp.
  apply post_returns. unfold setInputTensor. by wp.
Qed.

Lemma invoke_exception :
  Invoke E it = Throw (StdException what) →
  invoke E h w =
    Done (-1) (logged (error_line "Exception during inference: %s" [ArgStr what]) w).
Proof.
  destruct Hlive as [Hh (c & Hc & Hi)]. apply Z.eqb_neq in Hh. intros Hp.
  apply post_returns. unfold invoke. by wp.
Qed.

Lemma getOutputTensor_exception i a n :
  output_tensor E it (to_size_t i) = Throw (StdException what) →
  getOutputTensor E h i a n w =
    Done (-1) (logged (error_line "Exception getting output tensor: %s" [ArgStr what]) w).
Proof.
  destruct Hlive as [Hh (c & Hc & Hi)]. apply Z.eqb_neq in Hh. intros Hp.
  apply post_returns. unfold getOutputTensor. by wp.
Qed.

Lemma getInputTensorShape_exception i a :
  input_tensor E it (to_size_t i) = Throw (StdException what) →
  getInputTensorShape E h i a w =
    Done tt (logged (error_line "Exception getting input tensor shape: %s" [ArgStr what]) w).
Proof.
  destruct Hlive as [Hh (c & Hc & Hi)]. apply Z.eqb_neq in Hh. intros Hp.
  apply post_returns. unfold getInputTensorShape. by wp.
Qed.

Lemma getOutputTensorShape_exception i a :
  output_tensor E it (to_size_t i) = Throw (StdException what) →
  getOutputTensorShape E h i a w =
    Done tt (logged (error_line "Exception getting output tensor shape: %s" [ArgStr what]) w).
Proof.
  destruct Hlive as [Hh (c & Hc & Hi)]. apply Z.eqb_neq in Hh. intros Hp.
  apply post_returns. unfold getOutputTensorShape. by wp.
Qed.
End Caught.

Section Escapes.
Variables (E : Engine) (w : World) (h : Z) (it : Interpreter).
Hypothesis Hlive : live w h it.

Lemma setInputTensor_foreign i a n :
  input_tensor E it (to_size_t i) = Throw ForeignFault →
  setInputTensor E h i a n w = Raise ForeignFault w.
Proof.
  destruct Hlive as [Hh (c & Hc & Hi)]. apply Z.eqb_neq in Hh. intros Hp.
  unfold setInputTensor, try_catch. rewrite Hh.
  unfold mbind at 1. unfold M_bind. rewrite (live_the_interpreter _ _ _ Hlive).
  unfold mbind, M_bind, call. by rewrite Hp.
Qed.

Lemma invoke_foreign :
  Invoke E it = Throw ForeignFault → invoke E h w = Raise ForeignFault w.
Proof.
  destruct Hlive as [Hh (c & Hc & Hi)]. apply Z.eqb_neq in Hh. intros Hp.
  unfold invoke, try_catch. rewrite Hh.
  unfold mbind at 1. unfold M_bind. rewrite (live_the_interpreter _ _ _ Hlive).
  unfold mbind, M_bind, call. by rewrite Hp.
Qed.

Lemma getOutputTensor_foreign i a n :
  output_tensor E it (to_size_t i) = Throw ForeignFault →
  getOutputTensor E h i a n w = Raise ForeignFault w.
Proof.
  destruct Hlive as [Hh (c & Hc & Hi)]. apply Z.eqb_neq in Hh. intros Hp.
  unfold getOutputTensor, try_catch. rewrite Hh.
  unfold mbind at 1. unfold M_bind. rewrite (live_the_interpreter _ _ _ Hlive).
  unfold mbind, M_bind, call. by rewrite Hp.
Qed.

Lemma getInputTensorShape_foreign i a :
  input_tensor E it (to_size_t i) = Throw ForeignFault →
  getInputTensorShape E h i a w = Raise ForeignFault w.
Proof.
  destruct Hlive as [Hh (c & Hc & Hi)]. apply Z.eqb_neq in Hh. intros Hp.
  unfold getInputTensorShape, try_catch. rewrite Hh.
  unfold mbind at 1. unfold M_bind. rewrite (live_the_interpreter _ _ _ Hlive).
  unfold mbind, M_bind, call. by rewrite Hp.
Qed.

Lemma getOutputTensorShape_foreign i a :
  output_tensor E it (to_size_t i) = Throw ForeignFault →
  getOutputTensorShape E h i a w = Raise ForeignFault w.
Proof.
  destruct Hlive as [Hh (c & Hc & Hi)]. apply Z.eqb_neq in Hh. intros Hp.
  unfold getOutputTensorShape, try_catch. rewrite Hh.
  unfold mbind at 1. unfold M_bind. rewrite (live_the_interpreter _ _ _ Hlive).
  unfold mbind, M_bind, call. by rewrite Hp.
Qed.
End Escapes.

(** C2, as the code has it.  The six entry points written with a
    [try]/[catch] ([createInterpreter], [setInputTensor], [invoke],
    [getOutputTensor], [getInputTensorShape], [getOutputTensorShape])
    never end with a [std::exception] in flight; and when a library call
    they make raises one, they return their failure signal (0, -1, or
    nothing) after logging it, with every buffer as before the call.
    The handlers name [std::exception] only: a fault of another kind
    raised by the slot accessors or the forward pass leaves the entry
    point as it came. *)
Theorem std_exceptions_are_contained (E : Engine) (w : World) :
  (∀ what w' modelData h i a n,
     createInterpreter E modelData w ≠ Raise (StdException what) w' ∧
     setInputTensor E h i a n w ≠ Raise (StdException what) w' ∧
     invoke E h w ≠ Raise (StdException what) w' ∧
     getOutputTensor E h i a n w ≠ Raise (StdException what) w' ∧
     getInputTensorShape E h i a w ≠ Raise (StdException what) w' ∧
     getOutputTensorShape E h i a w ≠ Raise (StdException what) w') ∧
  (∀ modelData bytes what,
     byte_arrays w !! modelData = Some bytes →
     vm_access w modelData ≠ Inaccessible →
     loading_raises E bytes what →
     fails_with (createInterpreter E modelData w) 0 w
       (error_line "Exception creating interpreter: %s" [ArgStr what])) ∧
  (∀ h it what i a n,
     live w h it →
     (input_tensor E it (to_size_t i) = Throw (StdException what) →
      fails_with (setInputTensor E h i a n w) (-1) w
        (error_line "Exception setting input tensor: %s" [ArgStr what]) ∧
      fails_with (getInputTensorShape E h i a w) tt w
        (error_line "Exception getting input tensor shape: %s" [ArgStr what])) ∧
     (Invoke E it = Throw (StdException what) →
      fails_with (invoke E h w) (-1) w
        (error_line "Exception during inference: %s" [ArgStr what])) ∧
     (output_tensor E it (to_size_t i) = Throw (StdException what) →
      fails_with (getOutputTensor E h i a n w) (-1) w
        (error_line "Exception getting output tensor: %s" [ArgStr what]) ∧
      fails_with (getOutputTensorShape E h i a w) tt w
        (error_line "Exception getting output tensor shape: %s" [ArgStr what]))) ∧
  (∀ h it i a n,
     live w h it →
     (input_tensor E it (to_size_t i) = Throw ForeignFault →
      setInputTensor E h i a n w = Raise ForeignFault w ∧
      getInputTensorShape E h i a w = Raise ForeignFault w) ∧
     (Invoke E it = Throw ForeignFault → invoke E h w = Raise ForeignFault w) ∧
     (output_tensor E it (to_size_t i) = Throw ForeignFault →
      getOutputTensor E h i a n w = Raise ForeignFault w ∧
      getOutputTensorShape E h i a w = Raise ForeignFault w)).
Proof.
  split; [|split; [|split]].
  - intros what w' modelData h i a n.
    split; [|split; [|split; [|split; [|split]]]]; intros H.
    + by pose proof (post_Raise _ _ _ _ _ _ _ (createInterpreter_only_foreign E modelData w) H).
    + by pose proof (post_Raise _ _ _ _ _ _ _ (setInputTensor_only_foreign E h i a n w) H).
    + by pose proof (post_Raise _ _ _ _ _ _ _ (invoke_only_foreign E h w) H).
    + by pose proof (post_Raise _ _ _ _ _ _ _ (getOutputTensor_only_foreign E h i a n w) H).
    + by pose proof (post_Raise _ _ _ _ _ _ _ (getInputTensorShape_only_foreign E h i a w) H).
    + by pose proof (post_Raise _ _ _ _ _ _ _ (getOutputTensorShape_only_foreign E h i a w) H).
  - intros. apply fails_with_logged. by eapply create_exception.
  - intros h it what i a n Hlive. split; [|split]; intros H.
    + split; apply fails_with_logged.
      * by eapply setInputTensor_exception.
      * by eapply getInputTensorShape_exception.
    + apply fails_with_logged. by eapply invoke_exception.
    + split; apply fails_with_logged.
      * by eapply getOutputTensor_exception.
      * by eapply getOutputTensorShape_exception.
  - intros h it i a n Hlive. split; [|split]; intros H.
    + split; [by eapply setInputTensor_foreign | by eapply getInputTensorShape_foreign].
    + by eapply invoke_foreign.
    + split; [by eapply getOutputTensor_foreign | by eapply getOutputTensorShape_foreign].
Qed.

(** ** C9: the status values *)

(** C9. [setInputTensor], [invoke] and [getOutputTensor] answer 0 or -1
    and nothing else, 0 on the path that logs nothing and -1 on every
    path that logs an error line.  Every failure path answers -1: the
    handle 0, for all three; for a live session, a [std::exception]
    raised by the slot accessor or the forward pass, a slot the accessor
    answers [nullptr] for, an array the VM gives no access to, a forward
    pass whose status is not [kTfLiteOk].  Success answers 0: a copy of
    [n] cells that fit both buffers, a forward pass that reports
    [kTfLiteOk]. *)
Theorem status_is_zero_for_success_minus_one_for_failure (E : Engine) (w : World)
    (h index arr n : Z) :
  (∀ s w',
     setInputTensor E h index arr n w = Done s w' ∨
     invoke E h w = Done s w' ∨
     getOutputTensor E h index arr n w = Done s w' →
     (s = 0 ∨ s = -1) ∧ status_outcome w s w') ∧
  (h = 0 →
   ∃ w', setInputTensor E h index arr n w = Done (-1) w' ∧
         invoke E h w = Done (-1) w' ∧
         getOutputTensor E h index arr n w = Done (-1) w') ∧
  (∀ it, live w h it →
     ((∀ what, input_tensor E it (to_size_t index) = Throw (StdException what) →
               ∃ w', setInputTensor E h index arr n w = Done (-1) w') ∧
      (input_tensor E it (to_size_t index) = Ret None →
       ∃ w', setInputTensor E h index arr n w = Done (-1) w') ∧
      (∀ p src, input_tensor E it (to_size_t index) = Ret (Some p) →
                float_arrays w !! arr = Some src →
                vm_access w arr = Inaccessible →
                ∃ w', setInputTensor E h index arr n w = Done (-1) w') ∧
      (∀ p t src, input_tensor E it (to_size_t index) = Ret (Some p) →
                  tensors it !! p = Some t →
                  float_arrays w !! arr = Some src →
                  vm_access w arr ≠ Inaccessible →
                  0 ≤ n ≤ Z.of_nat (length src) →
                  n ≤ Z.of_nat (length (data_f t)) → n < 2 ^ 31 →
                  ∃ w', setInputTensor E h index arr n w = Done 0 w')) ∧
     ((∀ what, Invoke E it = Throw (StdException what) →
               ∃ w', invoke E h w = Done (-1) w') ∧
      (∀ st it', Invoke E it = Ret (st, it') → st ≠ kTfLiteOk →
                 ∃ w', invoke E h w = Done (-1) w') ∧
      (∀ it', Invoke E it = Ret (kTfLiteOk, it') →
              ∃ w', invoke E h w = Done 0 w')) ∧
     ((∀ what, output_tensor E it (to_size_t index) = Throw (StdException what) →
               ∃ w', getOutputTensor E h index arr n w = Done (-1) w') ∧
      (output_tensor E it (to_size_t index) = Ret None →
       ∃ w', getOutputTensor E h index arr n w = Done (-1) w') ∧
      (∀ p old, output_tensor E it (to_size_t index) = Ret (Some p) →
                float_arrays w !! arr = Some old →
                vm_access w arr = Inaccessible →
                ∃ w', getOutputTensor E h index arr n w = Done (-1) w') ∧
      (∀ p t old, output_tensor E it (to_size_t index) = Ret (Some p) →
                  tensors it !! p = Some t →
                  float_arrays w !! arr = Some old →
                  vm_access w arr ≠ Inaccessible →
                  0 ≤ n ≤ Z.of_nat (length old) →
                  n ≤ Z.of_nat (length (data_f t)) → n < 2 ^ 31 →
                  ∃ w', getOutputTensor E h index arr n w = Done 0 w'))).
Proof.
  split; [|split].
  - intros s w' H.
    assert (status_outcome w s w') as Hs.
    { destruct H as [H | [H | H]].
      - exact (post_Done _ _ _ _ _ _ _ (setInputTensor_status E h index arr n w) H).
      - exact (post_Done _ _ _ _ _ _ _ (invoke_status E h w) H).
      - exact (post_Done _ _ _ _ _ _ _ (getOutputTensor_status E h index arr n w) H). }
    split; [|done]. destruct Hs as [[-> _] | [-> _]]; auto.
  - intros ->. eexists. repeat split.
  - intros it Hlive. pose proof Hlive as [Hh (c & Hc & Hi)].
    split; [|split].
    + split; [|split; [|split]].
      * intros what Hp. eexists. by eapply setInputTensor_exception.
      * intros Hp. eexists. by eapply setInputTensor_missing_slot.
      * intros p src Hp Hsrc Hacc. eexists. by eapply setInputTensor_inaccessible.
      * intros p t src Hp Ht Hsrc Hacc Hn1 Hn2 Hn3. eexists.
        by eapply setInputTensor_success.
    + apply Z.eqb_neq in Hh. split; [|split].
      * intros what Hp. eexists. by eapply invoke_exception.
      * intros st it' Hinv Hst. eexists. apply post_returns. unfold invoke.
        destruct st; [done|..]; by wp.
      * intros it' Hinv. eexists. apply post_returns. unfold invoke. by wp.
    + split; [|split; [|split]].
      * intros what Hp. eexists. by eapply getOutputTensor_exception.
      * intros Hp. eexists. by eapply getOutputTensor_missing_slot.
      * intros p old Hp Hold Hacc. eexists. by eapply getOutputTensor_inaccessible.
      * intros p t old Hp Ht Hold Hacc Hn1 Hn2 Hn3. eexists.
        by eapply getOutputTensor_success.
Qed.

(** ** C8: the bridge adds no nondeterminism *)

Lemma inference_output E w h c it i p t data xs j output old :
  h ≠ 0 → heap w !! h = Some c → interpreter c = Some it →
  input_tensor E it (to_size_t i) = Ret (Some p) →
  tensors it !! p = Some t →
  float_arrays w !! data = Some xs →
  length (data_f t) = length xs →
  float_arrays w !! output = Some old →
  Z.of_nat (length xs) < 2 ^ 31 → Z.of_nat (length old) < 2 ^ 31 →
  post (inference E h i data (Z.of_nat (length xs)) j output (Z.of_nat (length old))) w
    (fun r w' =>
       r = (0, 0, 0) →
       ∃ st it', Invoke E (with_tensor it p (with_data t xs)) = Ret (st, it') ∧
                 float_arrays w' !! output =
                   take (length old) <$> output_data E it' (to_size_t j))
    (fun _ _ => True) True.
Proof.
  intros Hh Hc Hi Hp Ht Hxs Hlen Hold Hn Hm. apply Z.eqb_neq in Hh.
  assert (memcpy_cells (data_f t) xs (float_bytes (Z.of_nat (length xs))) = Some xs) as Hcp.
  { rewrite memcpy_cells_fits by lia.
    rewrite Nat2Z.id, firstn_all, <- Hlen, drop_all. by rewrite app_nil_r. }
  unfold inference.
  apply post_bind. unfold setInputTensor. wp; try done.
  all: unfold invoke; wp; try done.
  all: unfold getOutputTensor; wp; try done.
  all: intros _; simplify_eq/=; eexists _, _; (split; [eassumption|]).
  all: match goal with
       | H : memcpy_cells _ _ _ = Some _ |- _ =>
           apply memcpy_cells_inv in H as (-> & _ & _); [|lia]
       end.
  all: unfold output_data;
       repeat match goal with
              | H : output_tensor _ _ _ = _ |- _ => rewrite H
              | H : tensors _ !! _ = _ |- _ => rewrite H
              end; cbn.
  all: rewrite Nat2Z.id, drop_all, app_nil_r; done.
Qed.

Lemma input_data_bound E it i p t xs s :
  slots_fixed E →
  input_tensor E it (to_size_t i) = Ret (Some p) →
  tensors it !! p = Some t →
  (∀ s, s ≠ to_size_t i → input_tensor E it s ≠ Ret (Some p)) →
  input_data E (with_tensor it p (with_data t xs)) s =
    if decide (s = to_size_t i) then Some xs else input_data E it s.
Proof.
  intros Hfixed Hp Ht Halias. unfold input_data. rewrite Hfixed.
  case_decide as Hs.
  - subst s. rewrite Hp. cbn [with_tensor tensors].
    rewrite list_lookup_insert_eq by (by eapply lookup_lt_Some). done.
  - destruct (input_tensor E it s) as [[q|]|] eqn:Hq; try done.
    cbn [with_tensor tensors]. rewrite list_lookup_insert_ne; [done|].
    intros ->. by apply (Halias s).
Qed.

(** C8. Let the engine be deterministic (the status and the output
    slots after a forward pass are a function of the input slots before
    it) with slot tables that do not depend on tensor contents.  Take two
    runs of [setInputTensor], [invoke], [getOutputTensor], on the same
    session one after the other or on two sessions of the same model,
    that bind the same cells [xs] to input slot [i] with a length
    matching the slot, agree on the other input slots, read output slot
    [j] into arrays of the same length, and return 0 three times.  Then the two output arrays
    hold the same cells: nothing the bridge does between the caller's
    arrays and the engine depends on anything but the data. *)
Theorem inference_is_deterministic (E : Engine) (i j : Z)
    (w1 w2 w1' w2' : World) (h1 h2 data1 data2 out1 out2 : Z)
    (xs old1 old2 : list Z) (it1 it2 : Interpreter) (p1 p2 : nat) :
  deterministic E → slots_fixed E →
  ready E w1 h1 i data1 xs it1 p1 →
  ready E w2 h2 i data2 xs it2 p2 →
  graph it1 = graph it2 →
  (∀ s, s ≠ to_size_t i → input_data E it1 s = input_data E it2 s) →
  float_arrays w1 !! out1 = Some old1 →
  float_arrays w2 !! out2 = Some old2 →
  length old1 = length old2 → Z.of_nat (length old1) < 2 ^ 31 →
  inference E h1 i data1 (Z.of_nat (length xs)) j out1 (Z.of_nat (length old1)) w1
    = Done (0, 0, 0) w1' →
  inference E h2 i data2 (Z.of_nat (length xs)) j out2 (Z.of_nat (length old2)) w2
    = Done (0, 0, 0) w2' →
  float_arrays w1' !! out1 = float_arrays w2' !! out2.
Proof.
  intros Hdet Hfixed
    ([Hh1 (c1 & Hc1 & Hi1)] & Hp1 & (t1 & Ht1 & Hl1) & Hd1 & Hn1 & Ha1)
    ([Hh2 (c2 & Hc2 & Hi2)] & Hp2 & (t2 & Ht2 & Hl2) & Hd2 & Hn2 & Ha2)
    Hgraph Hothers Ho1 Ho2 Hlen Hm Hrun1 Hrun2.
  destruct (post_Done _ _ _ _ _ _ _
              (inference_output E w1 h1 c1 it1 i p1 t1 data1 xs j out1 old1
                 Hh1 Hc1 Hi1 Hp1 Ht1 Hd1 Hl1 Ho1 Hn1 Hm) Hrun1 eq_refl)
    as (st1 & it1' & Hinv1 & ->).
  destruct (post_Done _ _ _ _ _ _ _
              (inference_output E w2 h2 c2 it2 i p2 t2 data2 xs j out2 old2
                 Hh2 Hc2 Hi2 Hp2 Ht2 Hd2 Hl2 Ho2 Hn2 ltac:(lia)) Hrun2 eq_refl)
    as (st2 & it2' & Hinv2 & ->).
  specialize (Hdet (with_tensor it1 p1 (with_data t1 xs))
                   (with_tensor it2 p2 (with_data t2 xs))).
  rewrite Hinv1, Hinv2 in Hdet.
  destruct Hdet as [_ Hout].
  - done.
  - intros s.
    rewrite (input_data_bound E it1 i p1 t1 xs s) by done.
    rewrite (input_data_bound E it2 i p2 t2 xs s) by done.
    case_decide; [done | by apply Hothers].
  - by rewrite Hout, Hlen.
Qed.

(** * The theorems at work on the small engine *)

Lemma demo_live a : live (Demo.world a) 1 Demo.session.
Proof. split; [done|]. exists Demo.context. split; reflexivity. Defined.

Lemma demo_deterministic : deterministic Demo.engine.
Proof.
  intros a b _ Hin. cbn. split; [reflexivity|]. intros s.
  unfold output_data. cbn. destruct (Demo.slot 1 s); [|reflexivity]. cbn.
  specialize (Hin 0). unfold input_data in Hin. cbn in Hin.
  by rewrite Hin.
Defined.

Lemma demo_slots_fixed : slots_fixed Demo.engine.
Proof. intros it p t s. reflexivity. Defined.

Lemma demo_no_alias s : s ≠ to_size_t 0 → input_tensor Demo.engine Demo.session s ≠ Ret (Some 0%nat).
Proof.
  intros Hs. cbn. unfold Demo.slot. destruct (s =? 0) eqn:H0; [|discriminate].
  apply Z.eqb_eq in H0. by subst s.
Defined.

(** C2, the claim as stated fails: a fault that is not a
    [std::exception] raised by the forward pass leaves [invoke], and a
    [std::exception] raised while the slot table is read leaves the two
    count queries, which have no [try] block. *)
Lemma faults_escape_the_bridge :
  invoke Demo.faulty 1 (Demo.world Direct) =
    Raise ForeignFault (Demo.world Direct) ∧
  getInputTensorCount Demo.faulty 1 (Demo.world Direct) =
    Raise (StdException "inputs") (Demo.world Direct) ∧
  getOutputTensorCount Demo.faulty 1 (Demo.world Direct) =
    Raise (StdException "outputs") (Demo.world Direct).
Proof. repeat split. Qed.

Lemma std_exceptions_are_contained_witness :
  fails_with (createInterpreter Demo.engine 14 (Demo.world Copied)) 0 (Demo.world Copied)
    (error_line "Exception creating interpreter: %s" [ArgStr "bad flatbuffer"]) ∧
  fails_with (invoke Demo.throwing 1 (Demo.world Copied)) (-1) (Demo.world Copied)
    (error_line "Exception during inference: %s" [ArgStr "bad_alloc"]) ∧
  fails_with (setInputTensor Demo.throwing 1 0 20 4 (Demo.world Copied)) (-1)
    (Demo.world Copied)
    (error_line "Exception setting input tensor: %s" [ArgStr "out_of_range"]).
Proof.
  pose proof (std_exceptions_are_contained Demo.engine (Demo.world Copied)) as (_ & Hc & _).
  pose proof (std_exceptions_are_contained Demo.throwing (Demo.world Copied))
    as (_ & _ & Ht & _).
  destruct (Ht 1 Demo.session "bad_alloc" 0 20 4 (demo_live Copied)) as (_ & Hi & _).
  destruct (Ht 1 Demo.session "out_of_range" 0 20 4 (demo_live Copied)) as (Hs & _ & _).
  split; [|split].
  - apply (Hc 14 [3]); [reflexivity | discriminate | left; reflexivity].
  - apply Hi. reflexivity.
  - apply Hs. reflexivity.
Defined.

Lemma createInterpreter_fails_cleanly_witness :
  fails_with (createInterpreter Demo.engine 11 (Demo.world Direct)) 0 (Demo.world Direct)
    (error_line "Failed to create TensorFlow Lite model" []) ∧
  fails_with (createInterpreter Demo.engine 12 (Demo.world Direct)) 0 (Demo.world Direct)
    (error_line "Failed to create TensorFlow Lite interpreter" []) ∧
  fails_with (createInterpreter Demo.engine 13 (Demo.world Direct)) 0 (Demo.world Direct)
    (error_line "Failed to allocate tensors" []).
Proof.
  split; [|split].
  - destruct (createInterpreter_fails_cleanly Demo.engine (Demo.world Direct) 11 []
                eq_refl ltac:(discriminate)) as (H & _).
    apply H. reflexivity.
  - destruct (createInterpreter_fails_cleanly Demo.engine (Demo.world Direct) 12 [1]
                eq_refl ltac:(discriminate)) as (_ & H & _).
    apply (H (FlatBuffer [1])); reflexivity.
  - destruct (createInterpreter_fails_cleanly Demo.engine (Demo.world Direct) 13 [2]
                eq_refl ltac:(discriminate)) as (_ & _ & H & _).
    apply (H (FlatBuffer [2]) (Demo.blank (FlatBuffer [2])) kTfLiteError
             (Demo.blank (FlatBuffer [2]))); [reflexivity .. | discriminate].
Defined.

(** C4, the claim as stated fails: the slot tables of [Lab.unchecked]
    declare one input and one output, and its accessors resolve every
    index.  [setInputTensor] with index 5 answers 0 and overwrites the
    input tensor; [getOutputTensor] with index 7 answers 0 and writes the
    caller's array.  Neither compared the index with the declared
    count. *)
Lemma unchecked_slot_index_is_used :
  inputs Lab.unchecked Demo.session = Ret [0] ∧
  outputs Lab.unchecked Demo.session = Ret [1] ∧
  setInputTensor Lab.unchecked 1 5 20 4 (Demo.world Copied) =
    Done 0 (with_slot_data 1 Demo.context Demo.session 0 (Tensor [1; 4] [0; 0; 0; 0])
              [1; 2; 3; 4] (Demo.world Copied)) ∧
  getOutputTensor Lab.unchecked 1 7 21 2 (Demo.world Copied) =
    Done 0 (with_output 21 (Tensor [1; 2] [0; 0]) [9; 9; 9] 2 (Demo.world Copied)) ∧
  ¬ (∃ w', setInputTensor Lab.unchecked 1 5 20 4 (Demo.world Copied) = Done (-1) w' ∧
           same_buffers (Demo.world Copied) w') ∧
  ¬ (∃ w', getOutputTensor Lab.unchecked 1 7 21 2 (Demo.world Copied) = Done (-1) w' ∧
           same_buffers (Demo.world Copied) w').
Proof.
  split; [reflexivity|]. split; [reflexivity|].
  split; [vm_compute; reflexivity|]. split; [vm_compute; reflexivity|].
  split; intros (w' & H & _); vm_compute in H; discriminate.
Qed.

Lemma null_slot_is_refused_witness :
  (∃ w', setInputTensor Demo.engine 1 5 20 4 (Demo.world Copied) = Done (-1) w' ∧
         same_buffers (Demo.world Copied) w' ∧
         logcat w' = [error_line "Failed to get input tensor %d" [ArgInt 5]]) ∧
  (∃ w', getOutputTensor Demo.engine 1 (-1) 21 2 (Demo.world Copied) = Done (-1) w' ∧
         same_buffers (Demo.world Copied) w' ∧
         logcat w' = [error_line "Failed to get output tensor %d" [ArgInt (-1)]]) ∧
  setInputTensor Demo.faulty 1 5 20 4 (Demo.world Copied) =
    setInputTensor Demo.engine 1 5 20 4 (Demo.world Copied) ∧
  setInputTensor Lab.unchecked 1 5 20 4 (Demo.world Copied) =
    Done 0 (with_slot_data 1 Demo.context Demo.session 0 (Tensor [1; 4] [0; 0; 0; 0])
              [1; 2; 3; 4] (Demo.world Copied)) ∧
  getOutputTensor Lab.unchecked 1 7 21 2 (Demo.world Copied) =
    Done 0 (with_output 21 (Tensor [1; 2] [0; 0]) [9; 9; 9] 2 (Demo.world Copied)).
Proof.
  split; [|split; [|split; [|split]]].
  - destruct (null_slot_is_refused Demo.engine (Demo.world Copied) 1 Demo.session
                5 20 4 (demo_live Copied)) as (H & _).
    apply H. reflexivity.
  - destruct (null_slot_is_refused Demo.engine (Demo.world Copied) 1 Demo.session
                (-1) 21 2 (demo_live Copied)) as (_ & H & _).
    apply H. reflexivity.
  - destruct (null_slot_is_refused Demo.engine (Demo.world Copied) 1 Demo.session
                5 20 4 (demo_live Copied)) as (_ & _ & H & _).
    apply (H Demo.faulty). reflexivity.
  - destruct (null_slot_is_refused Lab.unchecked (Demo.world Copied) 1 Demo.session
                5 20 4 (demo_live Copied)) as (_ & _ & _ & _ & H & _).
    apply (H Demo.context 0%nat (Tensor [1; 4] [0; 0; 0; 0]) [1; 2; 3; 4]);
      try reflexivity; try discriminate; cbn; lia.
  - destruct (null_slot_is_refused Lab.unchecked (Demo.world Copied) 1 Demo.session
                7 21 2 (demo_live Copied)) as (_ & _ & _ & _ & _ & H).
    apply (H 1%nat (Tensor [1; 2] [0; 0]) [9; 9; 9]);
      try reflexivity; try discriminate; cbn; lia.
Defined.

Lemma shape_queries_truncate_witness :
  getInputTensorShape Demo.engine 1 0 30 (Demo.world Direct) =
    Done tt (set_arrays INT (<[30 := [1]]>) (Demo.world Direct)) ∧
  getOutputTensorShape Demo.engine 1 0 31 (Demo.world Copied) =
    Done tt (set_arrays INT (<[31 := [1; 2; 0]]>) (Demo.world Copied)).
Proof.
  split.
  - destruct (shape_queries_truncate Demo.engine (Demo.world Direct) 1 0 30 Demo.context
                Demo.session 0 (Tensor [1; 4] [0; 0; 0; 0]) [0]
                ltac:(discriminate) eq_refl eq_refl eq_refl eq_refl ltac:(discriminate))
      as (H & _).
    apply H. reflexivity.
  - destruct (shape_queries_truncate Demo.engine (Demo.world Copied) 1 0 31 Demo.context
                Demo.session 1 (Tensor [1; 2] [0; 0]) [0; 0; 0]
                ltac:(discriminate) eq_refl eq_refl eq_refl eq_refl ltac:(discriminate))
      as (_ & H & _).
    apply H. reflexivity.
Defined.

Lemma tensor_counts_witness :
  getInputTensorCount Demo.engine 1 (Demo.world Direct) = Done 1 (Demo.world Direct) ∧
  getOutputTensorCount Demo.engine 1 (Demo.world Direct) = Done 1 (Demo.world Direct).
Proof.
  destruct (tensor_counts Demo.engine (Demo.world Direct)) as (_ & _ & Hin & Hout).
  split.
  - apply (Hin 1 Demo.session [0] (demo_live Direct)); [reflexivity | cbn; lia].
  - apply (Hout 1 Demo.session [1] (demo_live Direct)); [reflexivity | cbn; lia].
Defined.

Lemma setInputTensor_copies_exactly_witness :
  setInputTensor Demo.engine 1 0 20 3 (Demo.world Copied) =
    Done 0 (with_slot_data 1 Demo.context Demo.session 0 (Tensor [1; 4] [0; 0; 0; 0])
              [1; 2; 3; 0] (Demo.world Copied)).
Proof.
  destruct (setInputTensor_copies_exactly Demo.engine (Demo.world Copied) 1 0 20 3)
    as (H & _).
  apply (H Demo.context Demo.session 0%nat (Tensor [1; 4] [0; 0; 0; 0]) [1; 2; 3; 4]);
    try reflexivity; try discriminate; cbn; lia.
Defined.

Lemma status_is_zero_for_success_minus_one_for_failure_witness :
  (∃ w', setInputTensor Demo.engine 1 0 20 4 (Demo.world Copied) = Done 0 w') ∧
  (∃ w', setInputTensor Demo.engine 1 5 20 4 (Demo.world Copied) = Done (-1) w') ∧
  (∃ w', setInputTensor Demo.engine 1 0 20 4 (Demo.world Inaccessible) = Done (-1) w') ∧
  (∃ w', setInputTensor Demo.throwing 1 0 20 4 (Demo.world Copied) = Done (-1) w') ∧
  (∃ w', invoke Demo.engine 1 (Demo.world Copied) = Done 0 w') ∧
  (∃ w', invoke Lab.failing 1 (Demo.world Copied) = Done (-1) w') ∧
  (∃ w', invoke Demo.throwing 1 (Demo.world Copied) = Done (-1) w') ∧
  (∃ w', getOutputTensor Demo.engine 1 0 21 2 (Demo.world Copied) = Done 0 w') ∧
  (∃ w', getOutputTensor Demo.engine 1 3 21 2 (Demo.world Copied) = Done (-1) w') ∧
  (∃ w', getOutputTensor Demo.engine 1 0 21 2 (Demo.world Inaccessible) = Done (-1) w') ∧
  (∃ w', setInputTensor Demo.engine 0 0 20 4 (Demo.world Copied) = Done (-1) w' ∧
         invoke Demo.engine 0 (Demo.world Copied) = Done (-1) w' ∧
         getOutputTensor Demo.engine 0 0 20 4 (Demo.world Copied) = Done (-1) w').
Proof.
  pose proof (status_is_zero_for_success_minus_one_for_failure Demo.engine
                (Demo.world Copied) 1 0 20 4) as (_ & _ & Hset).
  destruct (Hset Demo.session (demo_live Copied)) as ((_ & _ & _ & Hs0) & (_ & _ & Hi0) & _).
  pose proof (status_is_zero_for_success_minus_one_for_failure Demo.engine
                (Demo.world Copied) 1 5 20 4) as (_ & _ & Hbad).
  destruct (Hbad Demo.session (demo_live Copied)) as ((_ & Hs1 & _) & _).
  pose proof (status_is_zero_for_success_minus_one_for_failure Demo.engine
                (Demo.world Inaccessible) 1 0 20 4) as (_ & _ & Hno).
  destruct (Hno Demo.session (demo_live Inaccessible)) as ((_ & _ & Hs2 & _) & _).
  pose proof (status_is_zero_for_success_minus_one_for_failure Demo.throwing
                (Demo.world Copied) 1 0 20 4) as (_ & _ & Hthrow).
  destruct (Hthrow Demo.session (demo_live Copied)) as ((Hs3 & _) & (Hi2 & _) & _).
  pose proof (status_is_zero_for_success_minus_one_for_failure Lab.failing
                (Demo.world Copied) 1 0 20 4) as (_ & _ & Hfail).
  destruct (Hfail Demo.session (demo_live Copied)) as (_ & (_ & Hi1 & _) & _).
  pose proof (status_is_zero_for_success_minus_one_for_failure Demo.engine
                (Demo.world Copied) 1 0 21 2) as (_ & _ & Hget).
  destruct (Hget Demo.session (demo_live Copied)) as (_ & _ & (_ & _ & _ & Hg0)).
  pose proof (status_is_zero_for_success_minus_one_for_failure Demo.engine
                (Demo.world Copied) 1 3 21 2) as (_ & _ & Hgbad).
  destruct (Hgbad Demo.session (demo_live Copied)) as (_ & _ & (_ & Hg1 & _)).
  pose proof (status_is_zero_for_success_minus_one_for_failure Demo.engine
                (Demo.world Inaccessible) 1 0 21 2) as (_ & _ & Hgno).
  destruct (Hgno Demo.session (demo_live Inaccessible)) as (_ & _ & (_ & _ & Hg2 & _)).
  pose proof (status_is_zero_for_success_minus_one_for_failure Demo.engine
                (Demo.world Copied) 0 0 20 4) as (_ & Hnull & _).
  split; [|split; [|split; [|split; [|split; [|split; [|split; [|split; [|split; [|split]]]]]]]]].
  - apply (Hs0 0%nat (Tensor [1; 4] [0; 0; 0; 0]) [1; 2; 3; 4]);
      try reflexivity; try discriminate; cbn; lia.
  - apply Hs1. reflexivity.
  - apply (Hs2 0%nat [1; 2; 3; 4]); reflexivity.
  - apply (Hs3 "out_of_range"). reflexivity.
  - apply (Hi0 (Demo.forward Demo.session)). reflexivity.
  - apply (Hi1 kTfLiteError Demo.session); [reflexivity | discriminate].
  - apply (Hi2 "bad_alloc"). reflexivity.
  - apply (Hg0 1%nat (Tensor [1; 2] [0; 0]) [9; 9; 9]);
      try reflexivity; try discriminate; cbn; lia.
  - apply Hg1. reflexivity.
  - apply (Hg2 1%nat [9; 9; 9]); reflexivity.
  - apply Hnull. reflexivity.
Defined.

Lemma input_array_untouched_output_committed_witness :
  float_arrays
    (with_slot_data 1 Demo.context Demo.session 0 (Tensor [1; 4] [0; 0; 0; 0])
       [1; 2; 3; 4] (Demo.world Copied)) = float_arrays (Demo.world Copied) ∧
  ∃ w', getOutputTensor Demo.engine 1 0 21 2 (Demo.world Direct) = Done 0 w' ∧
        float_arrays w' !! 21 = Some [0; 0; 9].
Proof.
  split.
  - destruct (input_array_untouched_output_committed Demo.engine (Demo.world Copied)
                1 0 20 4) as (H & _).
    apply H. vm_compute. reflexivity.
  - destruct (input_array_untouched_output_committed Demo.engine (Demo.world Direct)
                1 0 21 2) as (_ & H).
    apply (H Demo.context Demo.session 1%nat (Tensor [1; 2] [0; 0]) [9; 9; 9]);
      try reflexivity; try discriminate; cbn; lia.
Defined.

Lemma inference_is_deterministic_witness :
  float_arrays Demo.once !! 22 = float_arrays Demo.twice !! 22.
Proof.
  apply (inference_is_deterministic Demo.engine 0 0
           (Demo.world Copied) Demo.once Demo.once Demo.twice 1 1 20 20 22 22
           [1; 2; 3; 4] [8; 8] [3; 7]
           Demo.session (Demo.forward (with_tensor Demo.session 0
                                         (Tensor [1; 4] [1; 2; 3; 4]))) 0 0
           demo_deterministic demo_slots_fixed).
  - split; [apply demo_live|]. split; [reflexivity|].
    split; [by exists (Tensor [1; 4] [0; 0; 0; 0])|].
    split; [reflexivity|]. split; [cbn; lia|]. apply demo_no_alias.
  - split; [split; [discriminate | eexists; split; vm_compute; reflexivity]|].
    split; [reflexivity|].
    split; [by exists (Tensor [1; 4] [1; 2; 3; 4])|].
    split; [vm_compute; reflexivity|]. split; [cbn; lia|].
    intros s Hs. cbn. unfold Demo.slot. destruct (s =? 0) eqn:H0; [|discriminate].
    apply Z.eqb_eq in H0. by subst s.
  - reflexivity.
  - intros s Hs. unfold input_data. cbn. unfold Demo.slot.
    destruct (s =? 0) eqn:H0; [|reflexivity].
    apply Z.eqb_eq in H0. by subst s.
  - vm_compute. reflexivity.
  - vm_compute. reflexivity.
  - reflexivity.
  - cbn. lia.
  - vm_compute. reflexivity.
  - vm_compute. reflexivity.
Defined.

(** * Further properties of the entry points *)

(** ** Frames: what each entry point leaves alone *)

Lemma post_final {A} (m : M A) w (P : World → Prop) w' :
  post m w (fun _ => P) (fun _ => P) True → final (m w) = Some w' → P w'.
Proof. unfold post, final. destruct (m w); intros HP [= <-]; exact HP. Qed.

Lemma post_returned {A} (m : M A) w (P : World → Prop) X w' :
  post m w (fun _ => P) X True → returned (m w) = Some w' → P w'.
Proof. unfold post, returned. destruct (m w); intros HP [= <-]; exact HP. Qed.

Lemma post_mono {A} (m : M A) w (Q Q' : A → World → Prop)
    (X X' : fault → World → Prop) (U : Prop) :
  post m w Q X U → (∀ a w', Q a w' → Q' a w') → (∀ f w', X f w' → X' f w') →
  post m w Q' X' U.
Proof. unfold post. destruct (m w); auto. Qed.

(** From a frame lemma to one of its components. *)
Ltac weaken := intros; cbv beta in *; unfold same_arrays in *; tauto.

Ltac from_final H lem :=
  match type of H with
  | _ = Some ?w' =>
      pattern w'; eapply post_final; [|exact H];
      eapply post_mono; [apply lem | weaken | weaken]
  end.

Ltac frame_goal :=
  unfold same_arrays, others_untouched; world_simpl;
  repeat split; try done;
  try (intros; rewrite ?lookup_insert_ne, ?lookup_delete_ne by done; done).

(** The rules of the calculus, with the loop of the shape queries and
    the scope of the context under construction. *)
Ltac wp_any :=
  repeat first
    [ apply post_unique_scope; cbn beta iota zeta; world_simpl
    | eapply post_copy_shape;
        [ reflexivity | world_simpl; eassumption | reflexivity | reflexivity
        | cbn [is_copy cells origin] ]
    | wp_step ].

Lemma memcpy_cells_length dst src n l :
  memcpy_cells dst src n = Some l → length l = length dst.
Proof.
  unfold memcpy_cells, sizeof_float.
  destruct (_ && _) eqn:Hb; [|done].
  apply andb_prop in Hb as [H1 H2]. apply Z.leb_le in H1, H2.
  intros [= <-].
  assert (n `div` 4 ≤ Z.of_nat (length dst)) by (apply Z.div_le_upper_bound; lia).
  assert (n `div` 4 ≤ Z.of_nat (length src)) by (apply Z.div_le_upper_bound; lia).
  rewrite length_app, length_take, length_drop. lia.
Qed.

Lemma truncated_fill_length dims old :
  length (truncated_fill dims old) = length old.
Proof.
  unfold truncated_fill. rewrite length_app, length_take, length_drop. lia.
Qed.

Lemma only_array_changed_refl a m : only_array_changed a m m.
Proof. split; [done|]. intros l Hl. by exists l. Qed.

Lemma only_array_changed_same a (m m' : gmap Z (list Z)) :
  m' = m → only_array_changed a m m'.
Proof. intros ->. apply only_array_changed_refl. Qed.

Lemma only_array_changed_insert a m l l' :
  m !! a = Some l → length l' = length l →
  only_array_changed a m (<[a := l']> m).
Proof.
  intros Hl Hlen. split.
  - intros b Hb. by rewrite lookup_insert_ne.
  - intros l0 Hl0. simplify_eq. exists l'. by rewrite lookup_insert_eq.
Qed.

Lemma setInputTensor_frame E h i a n w :
  post (setInputTensor E h i a n) w
    (fun _ w' => same_arrays w w' ∧ others_untouched h w w' ∧ borrowed w' = borrowed w)
    (fun _ w' => same_arrays w w' ∧ others_untouched h w w' ∧ borrowed w' = borrowed w)
    True.
Proof.
  unfold setInputTensor. wp; try done.
  all: frame_goal.
  all: by rewrite ?release_one_head.
Qed.

Lemma invoke_frame E h w :
  post (invoke E h) w
    (fun _ w' => same_arrays w w' ∧ others_untouched h w w' ∧ borrowed w' = borrowed w)
    (fun _ w' => same_arrays w w' ∧ others_untouched h w w' ∧ borrowed w' = borrowed w)
    True.
Proof.
  unfold invoke. wp; try done.
  all: frame_goal.
Qed.

Lemma getOutputTensor_frame E h i a n w :
  post (getOutputTensor E h i a n) w
    (fun _ w' => heap w' = heap w ∧ byte_arrays w' = byte_arrays w ∧
                 int_arrays w' = int_arrays w ∧
                 only_array_changed a (float_arrays w) (float_arrays w') ∧
                 borrowed w' = borrowed w)
    (fun _ w' => heap w' = heap w ∧ same_arrays w w' ∧ borrowed w' = borrowed w)
    True.
Proof.
  unfold getOutputTensor. wp; try done.
  all: unfold same_arrays; world_simpl; rewrite ?release_one_head.
  all: repeat split; try done; try apply only_array_changed_refl.
  all: eapply only_array_changed_insert; [eassumption|].
  all: by eapply memcpy_cells_length.
Qed.

Lemma getInputTensorShape_frame E h i a w :
  post (getInputTensorShape E h i a) w
    (fun _ w' => heap w' = heap w ∧ byte_arrays w' = byte_arrays w ∧
                 float_arrays w' = float_arrays w ∧
                 only_array_changed a (int_arrays w) (int_arrays w') ∧
                 borrowed w' = borrowed w)
    (fun _ w' => heap w' = heap w ∧ same_arrays w w' ∧ borrowed w' = borrowed w)
    True.
Proof.
  unfold getInputTensorShape. wp_any; try done.
  all: unfold same_arrays; world_simpl; rewrite ?release_one_head.
  all: repeat split; try done; try apply only_array_changed_refl.
  all: rewrite ?insert_insert_eq.
  all: eapply only_array_changed_insert; [eassumption|].
  all: by rewrite truncated_fill_length.
Qed.

Lemma getOutputTensorShape_frame E h i a w :
  post (getOutputTensorShape E h i a) w
    (fun _ w' => heap w' = heap w ∧ byte_arrays w' = byte_arrays w ∧
                 float_arrays w' = float_arrays w ∧
                 only_array_changed a (int_arrays w) (int_arrays w') ∧
                 borrowed w' = borrowed w)
    (fun _ w' => heap w' = heap w ∧ same_arrays w w' ∧ borrowed w' = borrowed w)
    True.
Proof.
  unfold getOutputTensorShape. wp_any; try done.
  all: unfold same_arrays; world_simpl; rewrite ?release_one_head.
  all: repeat split; try done; try apply only_array_changed_refl.
  all: rewrite ?insert_insert_eq.
  all: eapply only_array_changed_insert; [eassumption|].
  all: by rewrite truncated_fill_length.
Qed.

Lemma getInputTensorCount_pure E h w :
  post (getInputTensorCount E h) w (fun _ w' => w' = w) (fun _ w' => w' = w) True.
Proof. unfold getInputTensorCount. wp; done. Qed.

Lemma getOutputTensorCount_pure E h w :
  post (getOutputTensorCount E h) w (fun _ w' => w' = w) (fun _ w' => w' = w) True.
Proof. unfold getOutputTensorCount. wp; done. Qed.

Lemma destroyInterpreter_paths h w :
  post (destroyInterpreter h) w
    (fun _ w' =>
       same_arrays w w' ∧ others_untouched h w w' ∧ borrowed w' = borrowed w ∧
       (h = 0 → w' = w) ∧
       (h ≠ 0 → heap w' = delete h (heap w) ∧
                logcat w' = logcat w ++ [destroyed_line]))
    (fun _ _ => False) True.
Proof.
  unfold destroyInterpreter. destruct (Z.eqb_spec h 0) as [Hh|Hh].
  - by apply post_ret.
  - wp; try done. unfold same_arrays, others_untouched; world_simpl.
    repeat split; try done.
    intros h' Hh'. by rewrite lookup_delete_ne.
Qed.

Lemma createInterpreter_paths E md w :
  post (createInterpreter E md) w
    (fun h w' =>
       same_arrays w w' ∧ borrowed w' = borrowed w ∧
       ((h = 0 ∧ heap w' = heap w ∧
         ∃ f args, logcat w' = logcat w ++ [error_line f args]) ∨
        (h = new_addr w ∧
         (∃ mdl it, heap w' = <[h := Context (Some mdl) (Some it)]> (heap w)) ∧
         logcat w' = logcat w ++ [created_line])))
    (fun f w' =>
       f = ForeignFault ∧ same_arrays w w' ∧ heap w' = heap w ∧
       borrowed w' = md :: borrowed w ∧ logcat w' = logcat w)
    True.
Proof.
  unfold createInterpreter. wp_create; try done.
  all: cbn [fst snd]; unfold same_arrays; world_simpl.
  all: rewrite ?new_addr_borrowed, ?release_one_head.
  all: rewrite ?scope_left4, ?scope_left3, ?scope_left, ?scope_left1.
  all: try (split; [done|]); try (split; [done|]).
  all: try (left; split; [done|]; split; [done|]; eauto).
  all: try (repeat split; done).
  all: right; split; [done|]; split; [|done].
  all: cbn [model interpreter]; rewrite !insert_insert_eq; eauto.
Qed.

(** X16. [setInputTensor], [invoke] and [destroyInterpreter] called
    with handle [h] leave every other session of the native heap exactly
    as it was, on every path on which they end, by a return or by a
    fault. *)
Theorem sessions_are_independent (E : Engine) (w w' : World) (h i a n : Z) :
  final (setInputTensor E h i a n w) = Some w' ∨
  final (invoke E h w) = Some w' ∨
  final (destroyInterpreter h w) = Some w' →
  others_untouched h w w'.
Proof.
  intros [H | [H | H]].
  - from_final H setInputTensor_frame.
  - from_final H invoke_frame.
  - from_final H destroyInterpreter_paths.
Qed.

(** X17. [createInterpreter], [destroyInterpreter], [setInputTensor] and
    [invoke] never change a Java array, of bytes, floats or ints, on any
    path on which they end: the model bytes and the input cells are only
    read. *)
Theorem java_arrays_are_left_alone (E : Engine) (w w' : World) (h i a n md : Z) :
  final (createInterpreter E md w) = Some w' ∨
  final (destroyInterpreter h w) = Some w' ∨
  final (setInputTensor E h i a n w) = Some w' ∨
  final (invoke E h w) = Some w' →
  same_arrays w w'.
Proof.
  intros [H | [H | [H | H]]].
  - from_final H createInterpreter_paths.
  - from_final H destroyInterpreter_paths.
  - from_final H setInputTensor_frame.
  - from_final H invoke_frame.
Qed.

(** X18. Of the Java arrays, [getOutputTensor] can change only the float
    array it was given and the two shape queries only the int array they
    were given, and that array keeps its length; every other array is as
    before, on every path on which they end. *)
Theorem queries_write_only_their_destination (E : Engine) (w w' : World) (h i a n : Z) :
  (final (getOutputTensor E h i a n w) = Some w' →
   byte_arrays w' = byte_arrays w ∧ int_arrays w' = int_arrays w ∧
   only_array_changed a (float_arrays w) (float_arrays w')) ∧
  (final (getInputTensorShape E h i a w) = Some w' ∨
   final (getOutputTensorShape E h i a w) = Some w' →
   byte_arrays w' = byte_arrays w ∧ float_arrays w' = float_arrays w ∧
   only_array_changed a (int_arrays w) (int_arrays w')).
Proof.
  split.
  - intros H. pattern w'. eapply post_final; [|exact H].
    eapply post_mono; [apply getOutputTensor_frame | weaken |].
    intros f w1 (_ & (? & ? & ?) & _). by auto using only_array_changed_same.
  - intros [H | H]; pattern w'; (eapply post_final; [|exact H]).
    + eapply post_mono; [apply getInputTensorShape_frame | weaken |].
      intros f w1 (_ & (? & ? & ?) & _). by auto using only_array_changed_same.
    + eapply post_mono; [apply getOutputTensorShape_frame | weaken |].
      intros f w1 (_ & (? & ? & ?) & _). by auto using only_array_changed_same.
Qed.

(** X19. [getOutputTensor] and the two shape queries never change the
    native heap: reading a session leaves its tensors as they are.  The
    two count queries change nothing at all. *)
Theorem queries_leave_sessions_alone (E : Engine) (w w' : World) (h i a n : Z) :
  (final (getOutputTensor E h i a n w) = Some w' ∨
   final (getInputTensorShape E h i a w) = Some w' ∨
   final (getOutputTensorShape E h i a w) = Some w' →
   heap w' = heap w) ∧
  (final (getInputTensorCount E h w) = Some w' ∨
   final (getOutputTensorCount E h w) = Some w' →
   w' = w).
Proof.
  split.
  - intros [H | [H | H]].
    + from_final H getOutputTensor_frame.
    + from_final H getInputTensorShape_frame.
    + from_final H getOutputTensorShape_frame.
  - intros [H | H].
    + pattern w'. eapply post_final; [|exact H]. apply getInputTensorCount_pure.
    + pattern w'. eapply post_final; [|exact H]. apply getOutputTensorCount_pure.
Qed.

(** X20. Every element buffer an entry point obtains from the VM it has
    released by the time it returns: the buffers lent to native code are
    the same after the call as before.  For the eight entry points that
    take a handle this also holds when a fault leaves them. *)
Theorem lent_buffers_are_returned (E : Engine) (w w' : World) (h i a n md : Z) :
  returned (createInterpreter E md w) = Some w' ∨
  final (destroyInterpreter h w) = Some w' ∨
  final (setInputTensor E h i a n w) = Some w' ∨
  final (invoke E h w) = Some w' ∨
  final (getOutputTensor E h i a n w) = Some w' ∨
  final (getInputTensorCount E h w) = Some w' ∨
  final (getOutputTensorCount E h w) = Some w' ∨
  final (getInputTensorShape E h i a w) = Some w' ∨
  final (getOutputTensorShape E h i a w) = Some w' →
  borrowed w' = borrowed w.
Proof.
  intros [H | [H | [H | [H | [H | [H | [H | [H | H]]]]]]]].
  - pattern w'. eapply post_returned; [|exact H].
    eapply post_mono; [apply createInterpreter_paths | weaken | done].
  - from_final H destroyInterpreter_paths.
  - from_final H setInputTensor_frame.
  - from_final H invoke_frame.
  - from_final H getOutputTensor_frame.
  - pattern w'. eapply post_final; [|exact H].
    eapply post_mono; [apply getInputTensorCount_pure | by intros ? ? -> ..].
  - pattern w'. eapply post_final; [|exact H].
    eapply post_mono; [apply getOutputTensorCount_pure | by intros ? ? -> ..].
  - from_final H getInputTensorShape_frame.
  - from_final H getOutputTensorShape_frame.
Qed.

(** ** The log *)

Ltac one_line :=
  unfold logs_at_most_one_line; cbn [fst snd]; world_simpl;
  first [ exists []; split; [by rewrite app_nil_r | split; [simpl; lia | constructor]]
        | eexists [_]; split; [reflexivity | split; [simpl; lia | by repeat constructor]] ].

Lemma createInterpreter_log E md w :
  post (createInterpreter E md) w
    (fun _ => logs_at_most_one_line w) (fun _ => logs_at_most_one_line w) True.
Proof. unfold createInterpreter. wp_any; try done; one_line. Qed.

Lemma destroyInterpreter_log h w :
  post (destroyInterpreter h) w
    (fun _ => logs_at_most_one_line w) (fun _ => logs_at_most_one_line w) True.
Proof. unfold destroyInterpreter. wp_any; try done; one_line. Qed.

Lemma setInputTensor_log E h i a n w :
  post (setInputTensor E h i a n) w
    (fun _ => logs_at_most_one_line w) (fun _ => logs_at_most_one_line w) True.
Proof. unfold setInputTensor. wp_any; try done; one_line. Qed.

Lemma invoke_log E h w :
  post (invoke E h) w
    (fun _ => logs_at_most_one_line w) (fun _ => logs_at_most_one_line w) True.
Proof. unfold invoke. wp_any; try done; one_line. Qed.

Lemma getOutputTensor_log E h i a n w :
  post (getOutputTensor E h i a n) w
    (fun _ => logs_at_most_one_line w) (fun _ => logs_at_most_one_line w) True.
Proof. unfold getOutputTensor. wp_any; try done; one_line. Qed.

Lemma getInputTensorShape_log E h i a w :
  post (getInputTensorShape E h i a) w
    (fun _ => logs_at_most_one_line w) (fun _ => logs_at_most_one_line w) True.
Proof. unfold getInputTensorShape. wp_any; try done; one_line. Qed.

Lemma getOutputTensorShape_log E h i a w :
  post (getOutputTensorShape E h i a) w
    (fun _ => logs_at_most_one_line w) (fun _ => logs_at_most_one_line w) True.
Proof. unfold getOutputTensorShape. wp_any; try done; one_line. Qed.

(** X21. A call of an entry point only appends to the log, at most one
    line, and that line carries the tag [TFLiteUnity]; this holds on
    every path on which the call ends. *)
Theorem every_call_logs_at_most_one_line (E : Engine) (w w' : World) (h i a n md : Z) :
  final (createInterpreter E md w) = Some w' ∨
  final (destroyInterpreter h w) = Some w' ∨
  final (setInputTensor E h i a n w) = Some w' ∨
  final (invoke E h w) = Some w' ∨
  final (getOutputTensor E h i a n w) = Some w' ∨
  final (getInputTensorShape E h i a w) = Some w' ∨
  final (getOutputTensorShape E h i a w) = Some w' →
  logs_at_most_one_line w w'.
Proof.
  intros [H | [H | [H | [H | [H | [H | H]]]]]];
    pattern w'; (eapply post_final; [|exact H]).
  - apply createInterpreter_log.
  - apply destroyInterpreter_log.
  - apply setInputTensor_log.
  - apply invoke_log.
  - apply getOutputTensor_log.
  - apply getInputTensorShape_log.
  - apply getOutputTensorShape_log.
Qed.

(** ** Creating and destroying sessions *)

Lemma createInterpreter_success E w modelData bytes mdl it it1 it2 st :
  byte_arrays w !! modelData = Some bytes →
  vm_access w modelData ≠ Inaccessible →
  BuildFromBuffer E bytes (Z.of_nat (length bytes)) = Ret (Some mdl) →
  InterpreterBuilder E mdl = Ret (Some it) →
  AllocateTensors E it = Ret (kTfLiteOk, it1) →
  SetNumThreads E it1 4 = Ret (st, it2) →
  createInterpreter E modelData w =
    Done (new_addr w)
         (logged created_line
            (set_heap (<[new_addr w := Context (Some mdl) (Some it2)]>) w)).
Proof.
  intros Hbytes Hacc Hm Hb Ha Hn.
  change 4 with CONTEXT_THREADS in Hn.
  apply post_returns. unfold createInterpreter.
  wp_create; try done.
  all: split; [done|]; cbn [fst snd]; apply world_eq; world_simpl;
       rewrite ?new_addr_borrowed, ?release_one_head; try done.
  all: cbn [model interpreter]; by rewrite !insert_insert_eq.
Qed.

(** X1. When the model bytes are accessible, the buffer parses, the
    builder yields an interpreter and [AllocateTensors] answers
    [kTfLiteOk], [createInterpreter] returns a handle that is not 0 and
    designated no session before; the session at that handle holds the
    parsed model and the interpreter as [SetNumThreads(4)] left it,
    whatever status [SetNumThreads] answered; one debug line is logged,
    the model bytes are given back and nothing else changes. *)
Theorem createInterpreter_builds_session (E : Engine) (w : World) (modelData : Z)
    (bytes : list Z) (mdl : FlatBufferModel) (it it1 it2 : Interpreter)
    (st : TfLiteStatus) :
  byte_arrays w !! modelData = Some bytes →
  vm_access w modelData ≠ Inaccessible →
  BuildFromBuffer E bytes (Z.of_nat (length bytes)) = Ret (Some mdl) →
  InterpreterBuilder E mdl = Ret (Some it) →
  AllocateTensors E it = Ret (kTfLiteOk, it1) →
  SetNumThreads E it1 4 = Ret (st, it2) →
  ∃ h w',
    createInterpreter E modelData w = Done h w' ∧
    h ≠ 0 ∧ heap w !! h = None ∧
    heap w' = <[h := Context (Some mdl) (Some it2)]> (heap w) ∧
    same_arrays w w' ∧ borrowed w' = borrowed w ∧
    logcat w' = logcat w ++ [created_line].
Proof.
  intros Hbytes Hacc Hm Hb Ha Hn.
  exists (new_addr w). eexists. split.
  - by eapply createInterpreter_success.
  - destruct (new_addr_fresh w) as [Hnz Hfresh].
    repeat split; done.
Qed.

(** X2. Whenever [createInterpreter] returns, either it returns 0, the
    native heap is as before and one error line was logged, or it
    returns a handle that is not 0 and designated no session before, the
    heap has gained exactly that one session, with both its model and
    its interpreter in place, and the debug line was logged. *)
Theorem createInterpreter_adds_at_most_one_session (E : Engine) (w w' : World)
    (modelData h : Z) :
  createInterpreter E modelData w = Done h w' →
  (h = 0 ∧ heap w' = heap w ∧
   ∃ f args, logcat w' = logcat w ++ [error_line f args]) ∨
  (h ≠ 0 ∧ heap w !! h = None ∧
   (∃ mdl it, heap w' = <[h := Context (Some mdl) (Some it)]> (heap w)) ∧
   logcat w' = logcat w ++ [created_line]).
Proof.
  intros H.
  destruct (post_Done _ _ _ _ _ _ _ (createInterpreter_paths E modelData w) H)
    as (_ & _ & [Hfail | (-> & Hnew & Hlog)]); [by left|].
  right. destruct (new_addr_fresh w). done.
Qed.

(** X3. When the VM does not give access to the model bytes,
    [createInterpreter] returns 0 and logs its own error line without
    calling the library: the result is the same for every engine. *)
Theorem createInterpreter_without_bytes (E : Engine) (w : World) (modelData : Z)
    (bytes : list Z) :
  byte_arrays w !! modelData = Some bytes →
  vm_access w modelData = Inaccessible →
  createInterpreter E modelData w =
    Done 0 (logged (error_line "Failed to get model bytes" []) w).
Proof.
  intros Hbytes Hacc. apply post_returns. unfold createInterpreter. by wp.
Qed.

(** X4. A fault that leaves [createInterpreter] is not a
    [std::exception]; the context under construction has been destroyed
    with its scope, so the native heap is as before, but the model bytes
    are still lent to native code: no handler released them. *)
Theorem createInterpreter_fault_keeps_bytes_lent (E : Engine) (w w' : World)
    (modelData : Z) (f : fault) :
  createInterpreter E modelData w = Raise f w' →
  f = ForeignFault ∧ heap w' = heap w ∧
  borrowed w' = modelData :: borrowed w ∧ logcat w' = logcat w.
Proof.
  intros H.
  destruct (post_Raise _ _ _ _ _ _ _ (createInterpreter_paths E modelData w) H)
    as (? & _ & ? & ? & ?). done.
Qed.

(** X5. Two successful calls of [createInterpreter] in a row return
    different handles, and after the second call both sessions are live,
    the first one unchanged. *)
Theorem live_handles_are_distinct (E : Engine) (w w1 w2 : World) (md1 md2 h1 h2 : Z) :
  createInterpreter E md1 w = Done h1 w1 → h1 ≠ 0 →
  createInterpreter E md2 w1 = Done h2 w2 → h2 ≠ 0 →
  h1 ≠ h2 ∧ is_Some (heap w2 !! h1) ∧ is_Some (heap w2 !! h2) ∧
  heap w2 !! h1 = heap w1 !! h1.
Proof.
  intros H1 Hz1 H2 Hz2.
  destruct (post_Done _ _ _ _ _ _ _ (createInterpreter_paths E md1 w) H1)
    as (_ & _ & [(? & _) | (-> & (m1 & i1 & Hw1) & _)]); [done|].
  destruct (post_Done _ _ _ _ _ _ _ (createInterpreter_paths E md2 w1) H2)
    as (_ & _ & [(? & _) | (-> & (m2 & i2 & Hw2) & _)]); [done|].
  destruct (new_addr_fresh w1) as [_ Hfresh].
  assert (heap w1 !! new_addr w = Some (Context (Some m1) (Some i1))) as Hl1
    by (rewrite Hw1; apply lookup_insert_eq).
  assert (new_addr w ≠ new_addr w1) as Hne by (intros Heq; congruence).
  split; [done|]. rewrite Hw2.
  rewrite lookup_insert_ne by done. rewrite lookup_insert_eq.
  rewrite Hl1. eauto.
Qed.

Lemma destroyInterpreter_live w h c :
  h ≠ 0 → heap w !! h = Some c →
  destroyInterpreter h w = Done tt (logged destroyed_line (set_heap (delete h) w)).
Proof.
  intros Hh Hc. apply Z.eqb_neq in Hh.
  apply post_returns. unfold destroyInterpreter. by wp.
Qed.

(** X6. [destroyInterpreter] with handle 0 returns with the world
    untouched.  With the handle of a live session it returns, the session
    is gone from the native heap, every other session is as before and
    one debug line is logged. *)
Theorem destroyInterpreter_frees_one_session (w : World) (h : Z) (c : TFLiteContext) :
  destroyInterpreter 0 w = Done tt w ∧
  (h ≠ 0 → heap w !! h = Some c →
   ∃ w', destroyInterpreter h w = Done tt w' ∧
         heap w' !! h = None ∧ others_untouched h w w' ∧
         same_arrays w w' ∧ borrowed w' = borrowed w ∧
         logcat w' = logcat w ++ [destroyed_line]).
Proof.
  split; [done|]. intros Hh Hc. eexists. split.
  - by eapply destroyInterpreter_live.
  - unfold others_untouched, same_arrays. world_simpl.
    split; [apply lookup_delete_eq|]. split; [|done].
    intros h' Hh'. by apply lookup_delete_ne.
Qed.

(** X7. Creating a session and destroying it at once gives the world
    back as it was, but for the two debug lines: no context and no
    element buffer is left behind. *)
Theorem create_then_destroy_restores (E : Engine) (w : World) (modelData : Z)
    (bytes : list Z) (mdl : FlatBufferModel) (it it1 it2 : Interpreter)
    (st : TfLiteStatus) :
  byte_arrays w !! modelData = Some bytes →
  vm_access w modelData ≠ Inaccessible →
  BuildFromBuffer E bytes (Z.of_nat (length bytes)) = Ret (Some mdl) →
  InterpreterBuilder E mdl = Ret (Some it) →
  AllocateTensors E it = Ret (kTfLiteOk, it1) →
  SetNumThreads E it1 4 = Ret (st, it2) →
  create_and_destroy E modelData w =
    Done (new_addr w) (logged destroyed_line (logged created_line w)).
Proof.
  intros Hbytes Hacc Hm Hb Ha Hn.
  destruct (new_addr_fresh w) as [Hnz Hfresh].
  unfold create_and_destroy. unfold mbind at 1. unfold M_bind.
  rewrite (createInterpreter_success E w modelData bytes mdl it it1 it2 st) by done.
  unfold mbind, M_bind. erewrite destroyInterpreter_live;
    [|done|world_simpl; apply lookup_insert_eq].
  unfold mret, M_ret. f_equal.
  apply world_eq; world_simpl; try done.
  by apply delete_insert_id.
Qed.

Lemma post_undefined_eq {A} (m : M A) w :
  post m w (fun _ _ => False) (fun _ _ => False) True → m w = Undefined.
Proof. unfold post. by destruct (m w). Qed.

Section NoSession.
Variables (E : Engine) (w : World) (h : Z).
Hypothesis Hh : h ≠ 0.
Hypothesis Hnone : heap w !! h = None.

Lemma no_session_is_undefined i a n :
  destroyInterpreter h w = Undefined ∧
  setInputTensor E h i a n w = Undefined ∧
  invoke E h w = Undefined ∧
  getOutputTensor E h i a n w = Undefined ∧
  getInputTensorCount E h w = Undefined ∧
  getOutputTensorCount E h w = Undefined ∧
  getInputTensorShape E h i a w = Undefined ∧
  getOutputTensorShape E h i a w = Undefined.
Proof.
  pose proof Hh as Hz. apply Z.eqb_neq in Hz.
  repeat split; apply post_undefined_eq.
  - unfold destroyInterpreter. by wp.
  - unfold setInputTensor. by wp.
  - unfold invoke. by wp.
  - unfold getOutputTensor. by wp.
  - unfold getInputTensorCount. by wp.
  - unfold getOutputTensorCount. by wp.
  - unfold getInputTensorShape. by wp.
  - unfold getOutputTensorShape. by wp.
Qed.
End NoSession.

(** X8. Once [destroyInterpreter] has returned for a live handle, the
    bridge has no defined behaviour on that handle any more: a second
    [destroyInterpreter] and every other entry point dereference it
    without any test but the one against 0. *)
Theorem use_after_destroy_is_undefined (E : Engine) (w w' : World) (h i a n : Z)
    (c : TFLiteContext) :
  h ≠ 0 → heap w !! h = Some c →
  destroyInterpreter h w = Done tt w' →
  destroyInterpreter h w' = Undefined ∧
  setInputTensor E h i a n w' = Undefined ∧
  invoke E h w' = Undefined ∧
  getOutputTensor E h i a n w' = Undefined ∧
  getInputTensorCount E h w' = Undefined ∧
  getOutputTensorCount E h w' = Undefined ∧
  getInputTensorShape E h i a w' = Undefined ∧
  getOutputTensorShape E h i a w' = Undefined.
Proof.
  intros Hh Hc Hd.
  rewrite (destroyInterpreter_live w h c Hh Hc) in Hd. injection Hd as <-.
  apply no_session_is_undefined; [done|].
  world_simpl. apply lookup_delete_eq.
Qed.

(** ** Running and reading *)

(** X9. For a live session, [invoke] returns 0 exactly when the engine's
    [Invoke] answers [kTfLiteOk] and -1, with its error line, for every
    other status; in both cases the session holds the interpreter as the
    engine left it, and nothing else changes. *)
Theorem invoke_reports_engine_status (E : Engine) (w : World) (h : Z)
    (c : TFLiteContext) (it it' : Interpreter) (st : TfLiteStatus) :
  h ≠ 0 → heap w !! h = Some c → interpreter c = Some it →
  Invoke E it = Ret (st, it') →
  let w1 := set_heap (<[h := Context (model c) (Some it')]>) w in
  invoke E h w =
    if is_ok st then Done 0 w1
    else Done (-1) (logged (error_line "Failed to invoke interpreter" []) w1).
Proof.
  intros Hh Hc Hi Hinv w1. apply Z.eqb_neq in Hh.
  destruct (is_ok st) eqn:Hst; apply post_returns; unfold invoke; by wp.
Qed.

Lemma getOutputTensor_failure_frame E h i a n w :
  post (getOutputTensor E h i a n) w
    (fun s w' => s ≠ 0 → same_buffers w w') (fun _ _ => True) True.
Proof.
  unfold getOutputTensor. wp; try done.
  all: intros _; by repeat split.
Qed.

(** X10. For a live session whose output slot [index] is tensor [p]:
    when the destination array is accessible and [n] cells fit both
    buffers, [getOutputTensor] answers 0 and the array holds the first
    [n] cells of the tensor followed by its own old cells from [n] on;
    the session, the other arrays and the log are as before and the
    element buffer has been given back.  With a missing slot or an
    inaccessible array it answers -1 with its error line and nothing
    else changed, and whenever it answers something other than 0 no
    buffer of the world has changed. *)
Theorem getOutputTensor_copies_exactly (E : Engine) (w : World) (h index output n : Z) :
  (∀ c it p t old,
     h ≠ 0 → heap w !! h = Some c → interpreter c = Some it →
     output_tensor E it (to_size_t index) = Ret (Some p) →
     tensors it !! p = Some t →
     float_arrays w !! output = Some old →
     vm_access w output ≠ Inaccessible →
     0 ≤ n ≤ Z.of_nat (length old) → n ≤ Z.of_nat (length (data_f t)) →
     n < 2 ^ 31 →
     getOutputTensor E h index output n w = Done 0 (with_output output t old n w)) ∧
  (∀ c it,
     h ≠ 0 → heap w !! h = Some c → interpreter c = Some it →
     output_tensor E it (to_size_t index) = Ret None →
     getOutputTensor E h index output n w =
       Done (-1) (logged (error_line "Failed to get output tensor %d" [ArgInt index]) w)) ∧
  (∀ c it p old,
     h ≠ 0 → heap w !! h = Some c → interpreter c = Some it →
     output_tensor E it (to_size_t index) = Ret (Some p) →
     float_arrays w !! output = Some old →
     vm_access w output = Inaccessible →
     getOutputTensor E h index output n w =
       Done (-1) (logged (error_line "Failed to get output array" []) w)) ∧
  (∀ s w', getOutputTensor E h index output n w = Done s w' → s ≠ 0 →
           same_buffers w w').
Proof.
  split; [|split; [|split]].
  - intros. by eapply getOutputTensor_success.
  - intros. by eapply getOutputTensor_missing_slot.
  - intros. by eapply getOutputTensor_inaccessible.
  - intros s w' H. exact (post_Done _ _ _ _ _ _ _ (getOutputTensor_failure_frame E h index output n w) H).
Qed.

Lemma context_eta c it p t :
  interpreter c = Some it → tensors it !! p = Some t →
  Context (model c) (Some (with_tensor it p (with_data t (data_f t)))) = c.
Proof.
  destruct c as [m o], it as [ts nt g], t as [ds df]. cbn. intros -> Ht.
  unfold with_tensor, with_data. cbn. by rewrite list_insert_id.
Qed.

(** X11. With a count of 0, on a live session, an existing slot and an
    accessible array, [setInputTensor] and [getOutputTensor] answer 0 and
    leave the world exactly as it was. *)
Theorem zero_length_copies_change_nothing (E : Engine) (w : World) (h i arr : Z)
    (c : TFLiteContext) (it : Interpreter) (p : nat) (t : TfLiteTensor) (l : list Z) :
  h ≠ 0 → heap w !! h = Some c → interpreter c = Some it →
  tensors it !! p = Some t →
  float_arrays w !! arr = Some l →
  vm_access w arr ≠ Inaccessible →
  (input_tensor E it (to_size_t i) = Ret (Some p) →
   setInputTensor E h i arr 0 w = Done 0 w) ∧
  (output_tensor E it (to_size_t i) = Ret (Some p) →
   getOutputTensor E h i arr 0 w = Done 0 w).
Proof.
  intros Hh Hc Hi Ht Hl Hacc. split; intros Hp.
  - rewrite (setInputTensor_success E w h c it i p t arr l 0) by (done || lia).
    f_equal. unfold with_slot_data. apply world_eq; world_simpl; try done.
    change (Z.to_nat 0) with 0%nat. rewrite take_0, drop_0. cbn [app].
    rewrite context_eta by done. by apply insert_id.
  - rewrite (getOutputTensor_success E w h c it i p t arr l 0) by (done || lia).
    f_equal. unfold with_output. apply world_eq; world_simpl; try done.
    change (Z.to_nat 0) with 0%nat. rewrite take_0, drop_0. cbn [app].
    by apply insert_id.
Qed.

(** X12. Binding a slot twice with the same count leaves the world that
    the second binding alone would leave: the second [setInputTensor]
    overwrites the cells of the first and keeps no trace of them. *)
Theorem setInputTensor_last_write_wins (E : Engine) (w : World) (h i a1 a2 n : Z)
    (c : TFLiteContext) (it : Interpreter) (p : nat) (t : TfLiteTensor)
    (xs ys : list Z) :
  h ≠ 0 → heap w !! h = Some c → interpreter c = Some it →
  input_tensor E it (to_size_t i) = Ret (Some p) →
  tensors it !! p = Some t →
  let d1 := take (Z.to_nat n) xs ++ drop (Z.to_nat n) (data_f t) in
  input_tensor E (with_tensor it p (with_data t d1)) (to_size_t i) = Ret (Some p) →
  float_arrays w !! a1 = Some xs → float_arrays w !! a2 = Some ys →
  vm_access w a1 ≠ Inaccessible → vm_access w a2 ≠ Inaccessible →
  0 ≤ n ≤ Z.of_nat (length xs) → n ≤ Z.of_nat (length ys) →
  n ≤ Z.of_nat (length (data_f t)) → n < 2 ^ 31 →
  (setInputTensor E h i a1 n;; setInputTensor E h i a2 n) w =
    setInputTensor E h i a2 n w.
Proof.
  intros Hh Hc Hi Hp Ht d1 Hp1 Hxs Hys Hacc1 Hacc2 Hn1 Hn2 Hn3 Hn4.
  assert (length d1 = length (data_f t)) as Hd.
  { unfold d1. rewrite length_app, length_take, length_drop. lia. }
  unfold mbind, M_bind.
  rewrite (setInputTensor_success E w h c it i p t a1 xs n) by done. fold d1.
  rewrite (setInputTensor_success E w h c it i p t a2 ys n) by (done || lia).
  erewrite (setInputTensor_success E _ h _ _ i p (with_data t d1) a2 ys n);
    unfold with_slot_data; world_simpl; rewrite ?lookup_insert_eq; try done; try lia.
  - f_equal. apply world_eq; world_simpl; try done.
    rewrite insert_insert_eq. do 3 f_equal.
    unfold with_tensor, with_data. cbn [tensors num_threads graph dims data_f].
    rewrite list_insert_insert_eq. do 4 f_equal.
    unfold d1. rewrite drop_app_length'; [done|]. rewrite length_take. lia.
  - cbn [with_tensor tensors]. apply list_lookup_insert_eq. by eapply lookup_lt_Some.
  - cbn [data_f with_data]. lia.
Qed.

(** X13. What [setInputTensor] stores in a tensor is what
    [getOutputTensor] reads from it: when an output slot designates the
    tensor just bound, the first [n] cells of the destination array are
    the first [n] cells of the source array, cell for cell. *)
Theorem native_buffer_round_trip (E : Engine) (w : World) (h i j data out n : Z)
    (c : TFLiteContext) (it : Interpreter) (p : nat) (t : TfLiteTensor)
    (src old : list Z) :
  h ≠ 0 → heap w !! h = Some c → interpreter c = Some it →
  input_tensor E it (to_size_t i) = Ret (Some p) →
  tensors it !! p = Some t →
  let d := take (Z.to_nat n) src ++ drop (Z.to_nat n) (data_f t) in
  output_tensor E (with_tensor it p (with_data t d)) (to_size_t j) = Ret (Some p) →
  float_arrays w !! data = Some src → float_arrays w !! out = Some old →
  vm_access w data ≠ Inaccessible → vm_access w out ≠ Inaccessible →
  0 ≤ n ≤ Z.of_nat (length src) → n ≤ Z.of_nat (length (data_f t)) →
  n ≤ Z.of_nat (length old) → n < 2 ^ 31 →
  ∃ w', (setInputTensor E h i data n;; getOutputTensor E h j out n) w = Done 0 w' ∧
        float_arrays w' !! out =
          Some (take (Z.to_nat n) src ++ drop (Z.to_nat n) old) ∧
        heap w' = heap (with_slot_data h c it p t d w).
Proof.
  intros Hh Hc Hi Hp Ht d Hq Hsrc Hold Hacc1 Hacc2 Hn1 Hn2 Hn3 Hn4.
  assert (length d = length (data_f t)) as Hd.
  { unfold d. rewrite length_app, length_take, length_drop. lia. }
  unfold mbind, M_bind.
  rewrite (setInputTensor_success E w h c it i p t data src n) by done.
  fold d.
  erewrite (getOutputTensor_success E _ h _ _ j p (with_data t d) out old n);
    unfold with_slot_data; world_simpl; rewrite ?lookup_insert_eq; try done.
  - eexists. split; [reflexivity|]. split; [|done].
    unfold with_output. world_simpl. rewrite lookup_insert_eq.
    cbn [data_f with_data]. unfold d.
    rewrite take_app_le by (rewrite length_take; lia).
    rewrite take_take. do 3 f_equal. lia.
  - cbn [with_tensor tensors]. apply list_lookup_insert_eq. by eapply lookup_lt_Some.
  - cbn [data_f with_data]. lia.
  - cbn [data_f with_data]. lia.
Qed.

(** ** The shape queries *)

(** X14. The shape queries have no failure signal: with handle 0, with
    a slot the engine does not know, or with a destination the VM does
    not give access to, they return with the world untouched and nothing
    logged. *)
Theorem shape_queries_fail_silently (E : Engine) (w : World) (h index shape : Z) :
  getInputTensorShape E 0 index shape w = Done tt w ∧
  getOutputTensorShape E 0 index shape w = Done tt w ∧
  (∀ c it,
     h ≠ 0 → heap w !! h = Some c → interpreter c = Some it →
     (input_tensor E it (to_size_t index) = Ret None →
      getInputTensorShape E h index shape w = Done tt w) ∧
     (output_tensor E it (to_size_t index) = Ret None →
      getOutputTensorShape E h index shape w = Done tt w) ∧
     (∀ p old,
        int_arrays w !! shape = Some old → vm_access w shape = Inaccessible →
        (input_tensor E it (to_size_t index) = Ret (Some p) →
         getInputTensorShape E h index shape w = Done tt w) ∧
        (output_tensor E it (to_size_t index) = Ret (Some p) →
         getOutputTensorShape E h index shape w = Done tt w))).
Proof.
  split; [done|]. split; [done|].
  intros c it Hh Hc Hi. apply Z.eqb_neq in Hh.
  split; [|split].
  - intros Hp. apply post_returns. unfold getInputTensorShape. by wp.
  - intros Hp. apply post_returns. unfold getOutputTensorShape. by wp.
  - intros p old Hold Hacc. split; intros Hp; apply post_returns.
    + unfold getInputTensorShape. by wp.
    + unfold getOutputTensorShape. by wp.
Qed.

Lemma truncated_fill_idem dims old :
  truncated_fill dims (truncated_fill dims old) = truncated_fill dims old.
Proof.
  unfold truncated_fill at 1. rewrite truncated_fill_length.
  unfold truncated_fill. f_equal.
  rewrite drop_app_length'; [done|]. rewrite length_take. lia.
Qed.

(** X15. Asking for a shape twice is the same as asking once: the second
    query rewrites the cells the first one wrote. *)
Theorem shape_queries_are_idempotent (E : Engine) (w : World) (h index shape : Z)
    (c : TFLiteContext) (it : Interpreter) (p : nat) (t : TfLiteTensor) (old : list Z) :
  h ≠ 0 → heap w !! h = Some c → interpreter c = Some it →
  tensors it !! p = Some t →
  int_arrays w !! shape = Some old →
  vm_access w shape ≠ Inaccessible →
  (input_tensor E it (to_size_t index) = Ret (Some p) →
   (getInputTensorShape E h index shape;; getInputTensorShape E h index shape) w =
     getInputTensorShape E h index shape w) ∧
  (output_tensor E it (to_size_t index) = Ret (Some p) →
   (getOutputTensorShape E h index shape;; getOutputTensorShape E h index shape) w =
     getOutputTensorShape E h index shape w).
Proof.
  intros Hh Hc Hi Ht Hold Hacc.
  split; intros Hp.
  - rewrite (getInputTensorShape_fills E w h c it index p t shape old) by done.
    unfold mbind, M_bind.
    rewrite (getInputTensorShape_fills E w h c it index p t shape old) by done.
    rewrite (getInputTensorShape_fills E _ h c it index p t shape
               (truncated_fill (dims t) old)); try done.
    + f_equal. apply world_eq; world_simpl; try done.
      by rewrite truncated_fill_idem, insert_insert_eq.
    + cbn [set_arrays int_arrays]. apply lookup_insert_eq.
  - rewrite (getOutputTensorShape_fills E w h c it index p t shape old) by done.
    unfold mbind, M_bind.
    rewrite (getOutputTensorShape_fills E w h c it index p t shape old) by done.
    rewrite (getOutputTensorShape_fills E _ h c it index p t shape
               (truncated_fill (dims t) old)); try done.
    + f_equal. apply world_eq; world_simpl; try done.
      by rewrite truncated_fill_idem, insert_insert_eq.
    + cbn [set_arrays int_arrays]. apply lookup_insert_eq.
Qed.

(** ** The further properties at work *)

Lemma createInterpreter_builds_session_witness :
  ∃ h w', createInterpreter Demo.engine 10 (Demo.world Direct) = Done h w' ∧
          h ≠ 0 ∧ heap (Demo.world Direct) !! h = None ∧
          logcat w' = [created_line].
Proof.
  destruct (createInterpreter_builds_session Demo.engine (Demo.world Direct) 10 [7]
              (FlatBuffer [7]) (Demo.blank (FlatBuffer [7]))
              (Demo.allocate (Demo.blank (FlatBuffer [7])))
              (Interp (tensors Demo.session) 4 (FlatBuffer [7])) kTfLiteOk
              eq_refl ltac:(discriminate) eq_refl eq_refl eq_refl eq_refl)
    as (h & w' & Hrun & Hnz & Hfresh & _ & _ & _ & Hlog).
  exists h, w'. repeat split; assumption.
Defined.

Lemma createInterpreter_adds_at_most_one_session_witness :
  ∃ w', createInterpreter Demo.engine 11 (Demo.world Copied) = Done 0 w' ∧
        heap w' = heap (Demo.world Copied).
Proof.
  eexists. split; [vm_compute; reflexivity|].
  destruct (createInterpreter_adds_at_most_one_session Demo.engine (Demo.world Copied)
              _ 11 0 ltac:(vm_compute; reflexivity)) as [(_ & H & _) | (H & _)].
  - exact H.
  - by destruct H.
Defined.

Lemma createInterpreter_without_bytes_witness :
  createInterpreter Demo.throwing 10 (Demo.world Inaccessible) =
    Done 0 (logged (error_line "Failed to get model bytes" []) (Demo.world Inaccessible)).
Proof.
  exact (createInterpreter_without_bytes Demo.throwing (Demo.world Inaccessible) 10 [7]
           eq_refl eq_refl).
Defined.

Lemma createInterpreter_fault_keeps_bytes_lent_witness :
  ∃ w', createInterpreter Lab.foreign_loader 10 (Demo.world Copied) = Raise ForeignFault w' ∧
        heap w' = heap (Demo.world Copied) ∧ borrowed w' = [10].
Proof.
  eexists. split; [vm_compute; reflexivity|].
  destruct (createInterpreter_fault_keeps_bytes_lent Lab.foreign_loader (Demo.world Copied)
              _ 10 ForeignFault ltac:(vm_compute; reflexivity)) as (_ & Hheap & Hlent & _).
  split; assumption.
Defined.

Lemma live_handles_are_distinct_witness :
  ∃ w1 w2, createInterpreter Demo.engine 10 (Demo.world Copied) = Done 2 w1 ∧
           createInterpreter Demo.engine 10 w1 = Done 3 w2 ∧
           is_Some (heap w2 !! 2) ∧ is_Some (heap w2 !! 3).
Proof.
  eexists _, _. split; [vm_compute; reflexivity|]. split; [vm_compute; reflexivity|].
  destruct (live_handles_are_distinct Demo.engine (Demo.world Copied) _ _ 10 10 2 3
              ltac:(vm_compute; reflexivity) ltac:(discriminate)
              ltac:(vm_compute; reflexivity) ltac:(discriminate))
    as (_ & H1 & H2 & _).
  split; assumption.
Defined.

Lemma destroyInterpreter_frees_one_session_witness :
  ∃ w', destroyInterpreter 1 (Lab.world Direct) = Done tt w' ∧
        heap w' !! 1 = None ∧ others_untouched 1 (Lab.world Direct) w'.
Proof.
  destruct (destroyInterpreter_frees_one_session (Lab.world Direct) 1 Demo.context)
    as (_ & H).
  destruct (H ltac:(discriminate) eq_refl) as (w' & Hrun & Hgone & Hothers & _).
  exists w'. repeat split; assumption.
Defined.

Lemma create_then_destroy_restores_witness :
  create_and_destroy Demo.engine 10 (Demo.world Direct) =
    Done 2 (logged destroyed_line (logged created_line (Demo.world Direct))).
Proof.
  exact (create_then_destroy_restores Demo.engine (Demo.world Direct) 10 [7]
           (FlatBuffer [7]) (Demo.blank (FlatBuffer [7]))
           (Demo.allocate (Demo.blank (FlatBuffer [7])))
           (Interp (tensors Demo.session) 4 (FlatBuffer [7])) kTfLiteOk
           eq_refl ltac:(discriminate) eq_refl eq_refl eq_refl eq_refl).
Defined.

Lemma use_after_destroy_is_undefined_witness :
  ∃ w', destroyInterpreter 1 (Demo.world Direct) = Done tt w' ∧
        destroyInterpreter 1 w' = Undefined ∧
        invoke Demo.engine 1 w' = Undefined.
Proof.
  eexists. split; [vm_compute; reflexivity|].
  destruct (use_after_destroy_is_undefined Demo.engine (Demo.world Direct) _ 1 0 20 4
              Demo.context ltac:(discriminate) eq_refl ltac:(vm_compute; reflexivity))
    as (H1 & _ & H2 & _).
  split; assumption.
Defined.

Lemma invoke_reports_engine_status_witness :
  invoke Lab.failing 1 (Demo.world Direct) =
    Done (-1) (logged (error_line "Failed to invoke interpreter" [])
                 (set_heap (<[1 := Demo.context]>) (Demo.world Direct))).
Proof.
  exact (invoke_reports_engine_status Lab.failing (Demo.world Direct) 1 Demo.context
           Demo.session Demo.session kTfLiteError ltac:(discriminate)
           eq_refl eq_refl eq_refl).
Defined.

Lemma getOutputTensor_copies_exactly_witness :
  getOutputTensor Demo.engine 1 0 21 2 (Demo.world Copied) =
    Done 0 (with_output 21 (Tensor [1; 2] [0; 0]) [9; 9; 9] 2 (Demo.world Copied)) ∧
  getOutputTensor Demo.engine 1 0 21 2 (Demo.world Inaccessible) =
    Done (-1) (logged (error_line "Failed to get output array" [])
                 (Demo.world Inaccessible)).
Proof.
  split.
  - destruct (getOutputTensor_copies_exactly Demo.engine (Demo.world Copied) 1 0 21 2)
      as (H & _).
    apply (H Demo.context Demo.session 1%nat (Tensor [1; 2] [0; 0]) [9; 9; 9]);
      try reflexivity; try discriminate; cbn; lia.
  - destruct (getOutputTensor_copies_exactly Demo.engine (Demo.world Inaccessible) 1 0 21 2)
      as (_ & _ & H & _).
    apply (H Demo.context Demo.session 1%nat [9; 9; 9]);
      try reflexivity; discriminate.
Defined.

Lemma zero_length_copies_change_nothing_witness :
  setInputTensor Demo.engine 1 0 20 0 (Demo.world Copied) = Done 0 (Demo.world Copied) ∧
  getOutputTensor Demo.engine 1 0 21 0 (Demo.world Copied) = Done 0 (Demo.world Copied).
Proof.
  split.
  - destruct (zero_length_copies_change_nothing Demo.engine (Demo.world Copied) 1 0 20
                Demo.context Demo.session 0 (Tensor [1; 4] [0; 0; 0; 0]) [1; 2; 3; 4]
                ltac:(discriminate) eq_refl eq_refl eq_refl eq_refl ltac:(discriminate))
      as (H & _).
    apply H. reflexivity.
  - destruct (zero_length_copies_change_nothing Demo.engine (Demo.world Copied) 1 0 21
                Demo.context Demo.session 1 (Tensor [1; 2] [0; 0]) [9; 9; 9]
                ltac:(discriminate) eq_refl eq_refl eq_refl eq_refl ltac:(discriminate))
      as (_ & H).
    apply H. reflexivity.
Defined.

Lemma setInputTensor_last_write_wins_witness :
  (setInputTensor Demo.engine 1 0 20 4;; setInputTensor Demo.engine 1 0 23 4)
    (Lab.world Copied) =
  setInputTensor Demo.engine 1 0 23 4 (Lab.world Copied).
Proof.
  apply (setInputTensor_last_write_wins Demo.engine (Lab.world Copied) 1 0 20 23 4
           Demo.context Demo.session 0 (Tensor [1; 4] [0; 0; 0; 0])
           [1; 2; 3; 4] [5; 6; 7; 8]);
    first [ discriminate | reflexivity | cbn; lia ].
Defined.

Lemma native_buffer_round_trip_witness :
  ∃ w', (setInputTensor Lab.loopback 1 0 20 2;; getOutputTensor Lab.loopback 1 0 22 2)
          (Demo.world Copied) = Done 0 w' ∧
        float_arrays w' !! 22 = Some [1; 2].
Proof.
  destruct (native_buffer_round_trip Lab.loopback (Demo.world Copied) 1 0 0 20 22 2
              Demo.context Demo.session 0 (Tensor [1; 4] [0; 0; 0; 0])
              [1; 2; 3; 4] [8; 8]
              ltac:(discriminate) eq_refl eq_refl eq_refl eq_refl eq_refl eq_refl eq_refl
              ltac:(discriminate) ltac:(discriminate)
              ltac:(cbn; lia) ltac:(cbn; lia) ltac:(cbn; lia) ltac:(lia))
    as (w' & Hrun & Hout & _).
  exists w'. split; assumption.
Defined.

Lemma shape_queries_fail_silently_witness :
  getInputTensorShape Demo.engine 1 5 30 (Demo.world Direct) = Done tt (Demo.world Direct) ∧
  getOutputTensorShape Demo.engine 1 0 31 (Demo.world Inaccessible) =
    Done tt (Demo.world Inaccessible).
Proof.
  split.
  - destruct (shape_queries_fail_silently Demo.engine (Demo.world Direct) 1 5 30)
      as (_ & _ & H).
    destruct (H Demo.context Demo.session ltac:(discriminate) eq_refl eq_refl)
      as (Hin & _).
    apply Hin. reflexivity.
  - destruct (shape_queries_fail_silently Demo.engine (Demo.world Inaccessible) 1 0 31)
      as (_ & _ & H).
    destruct (H Demo.context Demo.session ltac:(discriminate) eq_refl eq_refl)
      as (_ & _ & Hacc).
    destruct (Hacc 1%nat [0; 0; 0] eq_refl eq_refl) as (_ & Hout).
    apply Hout. reflexivity.
Defined.

Lemma shape_queries_are_idempotent_witness :
  (getOutputTensorShape Demo.engine 1 0 31;; getOutputTensorShape Demo.engine 1 0 31)
    (Demo.world Copied) =
  getOutputTensorShape Demo.engine 1 0 31 (Demo.world Copied).
Proof.
  destruct (shape_queries_are_idempotent Demo.engine (Demo.world Copied) 1 0 31
              Demo.context Demo.session 1 (Tensor [1; 2] [0; 0]) [0; 0; 0]
              ltac:(discriminate) eq_refl eq_refl eq_refl eq_refl ltac:(discriminate))
    as (_ & H).
  apply H. reflexivity.
Defined.

Lemma sessions_are_independent_witness :
  ∃ w', final (setInputTensor Demo.engine 1 0 20 4 (Lab.world Copied)) = Some w' ∧
        others_untouched 1 (Lab.world Copied) w'.
Proof.
  eexists. split; [vm_compute; reflexivity|].
  apply (sessions_are_independent Demo.engine (Lab.world Copied) _ 1 0 20 4).
  left. vm_compute. reflexivity.
Defined.

Lemma java_arrays_are_left_alone_witness :
  ∃ w', final (invoke Demo.engine 1 (Lab.world Copied)) = Some w' ∧
        same_arrays (Lab.world Copied) w'.
Proof.
  eexists. split; [vm_compute; reflexivity|].
  apply (java_arrays_are_left_alone Demo.engine (Lab.world Copied) _ 1 0 20 4 10).
  right. right. right. vm_compute. reflexivity.
Defined.

Lemma queries_write_only_their_destination_witness :
  ∃ w', final (getOutputTensor Demo.engine 1 0 21 2 (Lab.world Direct)) = Some w' ∧
        only_array_changed 21 (float_arrays (Lab.world Direct)) (float_arrays w').
Proof.
  eexists. split; [vm_compute; reflexivity|].
  apply (proj1 (queries_write_only_their_destination Demo.engine (Lab.world Direct) _
                  1 0 21 2)).
  vm_compute. reflexivity.
Defined.

Lemma queries_leave_sessions_alone_witness :
  ∃ w', final (getOutputTensorShape Demo.engine 1 0 31 (Lab.world Direct)) = Some w' ∧
        heap w' = heap (Lab.world Direct).
Proof.
  eexists. split; [vm_compute; reflexivity|].
  apply (proj1 (queries_leave_sessions_alone Demo.engine (Lab.world Direct) _ 1 0 31 0)).
  right. right. vm_compute. reflexivity.
Defined.

Lemma lent_buffers_are_returned_witness :
  ∃ w', returned (createInterpreter Demo.engine 13 (Demo.world Copied)) = Some w' ∧
        borrowed w' = borrowed (Demo.world Copied).
Proof.
  eexists. split; [vm_compute; reflexivity|].
  apply (lent_buffers_are_returned Demo.engine (Demo.world Copied) _ 1 0 20 4 13).
  left. vm_compute. reflexivity.
Defined.

Lemma every_call_logs_at_most_one_line_witness :
  ∃ w', final (setInputTensor Demo.engine 1 7 20 4 (Demo.world Copied)) = Some w' ∧
        logs_at_most_one_line (Demo.world Copied) w'.
Proof.
  eexists. split; [vm_compute; reflexivity|].
  apply (every_call_logs_at_most_one_line Demo.engine (Demo.world Copied) _ 1 7 20 4 10).
  right. right. left. vm_compute. reflexivity.
Defined.
